(** * Trigger resolution and delivery dispatch of the character-alias bot

    A shallow embedding of [src/bot/alias_manager.py] (class [AliasManager])
    and of the [on_message] handler of [src/main.py], followed by the
    properties of the engine that the specification states.

    Conventions of the embedding.
    - A Python [str] is a list of characters.  Characters are the code
      points below 256 (Latin-1); [lower], [strip] and the slices are the
      Python operations restricted to that range, where [lower] keeps the
      length of the text.
    - Discord snowflakes and database keys are integers ([Z]).
    - The database is read through a record of queries ([PersonaStore]);
      the Discord API is an oracle ([Discord]) whose answers may depend on
      the number of calls made so far, every call being logged in a trace.
    - Functions that mutate [self] return the new manager state. *)

From Stdlib Require Import ZArith List Ascii String Bool Lia Sorted.
From stdpp Require Import gmap strings list fin_maps.

Import ListNotations.
Local Open Scope Z_scope.

(** ** Python strings *)

Module PyStr.

Abbreviation str := (list ascii).

(** A literal: [py "k:"] is the text [k:]. *)
Definition py (s : string) : str := list_ascii_of_string s.

Definition code (c : ascii) : N := N_of_ascii c.

(** [str.lower] on one code point below 256: A-Z and the Latin-1 capitals
    (U+00C0..U+00DE without the multiplication sign U+00D7) move by 32. *)
Definition lower_char (c : ascii) : ascii :=
  let n := code c in
  if ((65 <=? n) && (n <=? 90))%N
     || ((192 <=? n) && (n <=? 222) && negb (n =? 215))%N
  then ascii_of_N (n + 32)
  else c.

Definition lower (s : str) : str := map lower_char s.

(** [str.isspace] on one code point below 256. *)
Definition isspace (c : ascii) : bool :=
  let n := code c in
  ((9 <=? n) && (n <=? 13) || (28 <=? n) && (n <=? 32)
   || (n =? 133) || (n =? 160))%N.

Fixpoint lstrip (s : str) : str :=
  match s with
  | [] => []
  | c :: s' => if isspace c then lstrip s' else s
  end.

Definition rstrip (s : str) : str := rev (lstrip (rev s)).

(** [s.strip()] *)
Definition strip (s : str) : str := lstrip (rstrip s).

(** [s.startswith(p)] *)
Fixpoint startswith (s p : str) {struct p} : bool :=
  match p, s with
  | [], _ => true
  | _ :: _, [] => false
  | c :: p', d :: s' => Ascii.eqb d c && startswith s' p'
  end.

(** [s.endswith(p)] *)
Definition endswith (s p : str) : bool := startswith (rev s) (rev p).

(** [len(s)] *)
Definition len (s : str) : Z := Z.of_nat (length s).

(** The bound of a slice, as Python clamps it: a negative index counts
    from the end, and the result stays within [0 .. len]. *)
Definition clamp (n i : Z) : Z :=
  if i <? 0 then Z.max 0 (i + n) else Z.min i n.

(** [s[start:stop]] *)
Definition slice (s : str) (start stop : Z) : str :=
  let a := clamp (len s) start in
  let b := clamp (len s) stop in
  take (Z.to_nat (b - a)) (drop (Z.to_nat a) s).

(** [s[start:]] *)
Definition slice_from (s : str) (start : Z) : str :=
  drop (Z.to_nat (clamp (len s) start)) s.

(** [s.split('\n')] *)
Definition newline : ascii := ascii_of_N 10.

Fixpoint split_nl (s : str) : list str :=
  match s with
  | [] => [[]]
  | c :: s' =>
      if Ascii.eqb c newline then [] :: split_nl s'
      else match split_nl s' with
           | h :: t => (c :: h) :: t
           | [] => [[c]]
           end
  end.

(** Truth value of a string: the empty string is false. *)
Definition truthy (s : str) : bool :=
  match s with [] => false | _ :: _ => true end.

End PyStr.

Import PyStr.

(** ** Trigger matching and content extraction *)

Definition bracket_style (trigger_lower : str) : bool :=
  startswith trigger_lower (py "[") && endswith trigger_lower (py "]").

Definition paren_style (trigger_lower : str) : bool :=
  startswith trigger_lower (py "(") && endswith trigger_lower (py ")").

(** [AliasManager._matches_trigger] *)
Definition _matches_trigger (message trigger : str) : bool :=
  if negb (truthy message) || negb (truthy trigger) then false
  else
    let message_lower := lower message in
    let trigger_lower := lower trigger in
    if bracket_style trigger_lower then
      startswith message_lower (py "[") && endswith message_lower (py "]")
      && (2 <? len message)
    else if paren_style trigger_lower then
      startswith message_lower (py "(") && endswith message_lower (py ")")
      && (2 <? len message)
    else if startswith message_lower trigger_lower then true
    else if bool_decide (trigger_lower = message_lower) then true
    else false.

(** [AliasManager._extract_content] *)
Definition _extract_content (message trigger : str) : str :=
  if negb (truthy message) || negb (truthy trigger) then message
  else
    let message_lower := lower message in
    let trigger_lower := lower trigger in
    if bracket_style trigger_lower then
      if startswith message_lower (py "[") && endswith message_lower (py "]")
      then strip (slice message 1 (-1))
      else message
    else if paren_style trigger_lower then
      if startswith message_lower (py "(") && endswith message_lower (py ")")
      then strip (slice message 1 (-1))
      else message
    else if bool_decide (trigger_lower = message_lower) then []
    else if startswith message_lower trigger_lower
      then strip (slice_from message (len trigger))
    else message.

(** ** Data model *)

(** [models.CharacterAlias]: the columns the engine reads.  The usage
    counters are left out: the engine only increments them. *)
Record CharacterAlias := {
  alias_id : Z;
  user_id : Z;
  guild_id : Z;
  name : str;
  trigger : str;
  avatar_url : str
}.

(** One entry of the list built by [_get_user_overrides]. *)
Record OverrideData := {
  personal_trigger : str;
  ov_alias : CharacterAlias
}.

(** The queries of [AliasManager] against the database. *)
Record PersonaStore := {
  get_user_aliases : Z -> Z -> list CharacterAlias;
  _get_shared_aliases_for_user : Z -> Z -> list CharacterAlias;
  _get_user_overrides : Z -> Z -> list OverrideData;
  get_alias_by_name : Z -> Z -> str -> option CharacterAlias
}.

(** A value of the [auto_proxy] dictionary:
    [{'guild_id': int, 'alias': CharacterAlias or None}]. *)
Record AutoData := {
  ad_guild_id : Z;
  ad_alias : option CharacterAlias
}.

Record Webhook := {
  wh_id : Z;
  wh_name : str
}.

(** The mutable fields of [AliasManager]. *)
Record AliasManager := {
  webhook_cache : gmap Z Webhook;
  processing_messages : gset Z;
  auto_proxy : gmap Z AutoData
}.

Definition set_auto_proxy (ap : gmap Z AutoData) (m : AliasManager) : AliasManager :=
  {| webhook_cache := webhook_cache m;
     processing_messages := processing_messages m;
     auto_proxy := ap |}.

Definition set_processing (ps : gset Z) (m : AliasManager) : AliasManager :=
  {| webhook_cache := webhook_cache m;
     processing_messages := ps;
     auto_proxy := auto_proxy m |}.

Definition set_webhook_cache (wc : gmap Z Webhook) (m : AliasManager) : AliasManager :=
  {| webhook_cache := wc;
     processing_messages := processing_messages m;
     auto_proxy := auto_proxy m |}.

(** A channel: its id and, for a thread, the id of its parent. *)
Record Channel := {
  channel_id : Z;
  parent : option Z
}.

(** [discord.Message]: the attributes the engine reads. *)
Record Message := {
  msg_id : Z;
  author_id : Z;
  author_bot : bool;
  guild : option Z;
  channel : Channel;
  content : str
}.

(** ** Sticky auto-proxy *)

(** The three states of the specification, read off the dictionary. *)
Inductive StickyState :=
| Disabled
| EnabledUnset
| EnabledWith (a : CharacterAlias).

Definition sticky_state (ap : gmap Z AutoData) (user g : Z) : StickyState :=
  match ap !! user with
  | Some ad =>
      if ad_guild_id ad =? g then
        match ad_alias ad with
        | Some a => EnabledWith a
        | None => EnabledUnset
        end
      else Disabled
  | None => Disabled
  end.

(** [AliasManager.enable_auto_proxy]: the new dictionary and the result. *)
Definition enable_auto_proxy (db : PersonaStore) (ap : gmap Z AutoData)
    (user g : Z) (alias_name : str) : gmap Z AutoData * bool :=
  if truthy alias_name then
    match get_alias_by_name db user g alias_name with
    | None => (ap, false)
    | Some a => (<[user := {| ad_guild_id := g; ad_alias := Some a |}]> ap, true)
    end
  else (<[user := {| ad_guild_id := g; ad_alias := None |}]> ap, true).

(** [AliasManager.disable_auto_proxy] *)
Definition disable_auto_proxy (ap : gmap Z AutoData) (user : Z)
    : gmap Z AutoData * bool :=
  match ap !! user with
  | Some _ => (delete user ap, true)
  | None => (ap, false)
  end.

(** [AliasManager.get_auto_proxy_status] *)
Definition get_auto_proxy_status (ap : gmap Z AutoData) (user g : Z)
    : option CharacterAlias :=
  match ap !! user with
  | Some ad => if ad_guild_id ad =? g then ad_alias ad else None
  | None => None
  end.

(** The block repeated after every trigger match:
    [if author in auto_proxy: if auto_data['guild_id'] == guild:
       auto_proxy[author]['alias'] = alias]. *)
Definition update_sticky (ap : gmap Z AutoData) (author g : Z)
    (a : CharacterAlias) : gmap Z AutoData :=
  match ap !! author with
  | Some ad =>
      if ad_guild_id ad =? g
      then <[author := {| ad_guild_id := ad_guild_id ad; ad_alias := Some a |}]> ap
      else ap
  | None => ap
  end.

(** The auto-proxy fallback shared by both resolvers:
    [author in auto_proxy and guild_id == guild and auto_data['alias']]. *)
Definition sticky_alias (ap : gmap Z AutoData) (author g : Z)
    : option CharacterAlias :=
  match ap !! author with
  | Some ad => if ad_guild_id ad =? g then ad_alias ad else None
  | None => None
  end.

(** ** Single-line resolution *)

(** First loop of [check_message_for_alias]: the first override whose
    personal trigger matches. *)
Fixpoint match_override (text : str) (overrides : list OverrideData)
    : option OverrideData :=
  match overrides with
  | [] => None
  | o :: rest =>
      if _matches_trigger text (personal_trigger o) then Some o
      else match_override text rest
  end.

(** Second loop: the first alias of [all_aliases] whose trigger matches. *)
Fixpoint match_alias (text : str) (all_aliases : list CharacterAlias)
    : option CharacterAlias :=
  match all_aliases with
  | [] => None
  | a :: rest =>
      if _matches_trigger text (trigger a) then Some a
      else match_alias text rest
  end.

Definition all_aliases_of (db : PersonaStore) (author g : Z) : list CharacterAlias :=
  get_user_aliases db author g ++ _get_shared_aliases_for_user db author g.

(** [AliasManager.check_message_for_alias]: the result and the dictionary
    after the call. *)
Definition check_message_for_alias (db : PersonaStore) (ap : gmap Z AutoData)
    (message : Message) : option (CharacterAlias * str) * gmap Z AutoData :=
  match guild message with
  | None => (None, ap)
  | Some g =>
      if author_bot message then (None, ap)
      else
        let author := author_id message in
        let overrides := _get_user_overrides db author g in
        let all_aliases := all_aliases_of db author g in
        let message_content := content message in
        match match_override message_content overrides with
        | Some o =>
            (Some (ov_alias o, _extract_content message_content (personal_trigger o)),
             update_sticky ap author g (ov_alias o))
        | None =>
            match match_alias message_content all_aliases with
            | Some a =>
                (Some (a, _extract_content message_content (trigger a)),
                 update_sticky ap author g a)
            | None =>
                match sticky_alias ap author g with
                | Some a => (Some (a, message_content), ap)
                | None => (None, ap)
                end
            end
        end
  end.

(** ** Multi-line splitting *)

(** Override loop of [parse_multiline_aliases]: the first override that
    matches the line and leaves content that is not blank. *)
Fixpoint line_override (line : str) (overrides : list OverrideData)
    : option (CharacterAlias * str) :=
  match overrides with
  | [] => None
  | o :: rest =>
      if _matches_trigger line (personal_trigger o) then
        let actual_content := _extract_content line (personal_trigger o) in
        if truthy (strip actual_content) then Some (ov_alias o, actual_content)
        else line_override line rest
      else line_override line rest
  end.

(** Alias loop of [parse_multiline_aliases]. *)
Fixpoint line_alias (line : str) (all_aliases : list CharacterAlias)
    : option (CharacterAlias * str) :=
  match all_aliases with
  | [] => None
  | a :: rest =>
      if _matches_trigger line (trigger a) then
        let actual_content := _extract_content line (trigger a) in
        if truthy (strip actual_content) then Some (a, actual_content)
        else line_alias line rest
      else line_alias line rest
  end.

(** What the two trigger loops give for one stripped line. *)
Definition line_explicit (overrides : list OverrideData)
    (all_aliases : list CharacterAlias) (line : str)
    : option (CharacterAlias * str) :=
  match line_override line overrides with
  | Some r => Some r
  | None => line_alias line all_aliases
  end.

(** The loop state: the dictionary and [parsed_messages]. *)
Definition SplitState : Type := gmap Z AutoData * list (CharacterAlias * str).

(** One iteration of [for line in lines]. *)
Definition process_line (overrides : list OverrideData)
    (all_aliases : list CharacterAlias) (author g : Z)
    (st : SplitState) (raw_line : str) : SplitState :=
  let '(ap, parsed_messages) := st in
  let line := strip raw_line in
  if negb (truthy line) then st
  else
    match line_explicit overrides all_aliases line with
    | Some (a, actual_content) =>
        (update_sticky ap author g a, parsed_messages ++ [(a, actual_content)])
    | None =>
        match sticky_alias ap author g with
        | Some a => (ap, parsed_messages ++ [(a, line)])
        | None => st
        end
    end.

Definition process_lines (overrides : list OverrideData)
    (all_aliases : list CharacterAlias) (author g : Z)
    (st : SplitState) (lines : list str) : SplitState :=
  fold_left (process_line overrides all_aliases author g) lines st.

(** [AliasManager.parse_multiline_aliases] *)
Definition parse_multiline_aliases (db : PersonaStore) (ap : gmap Z AutoData)
    (message : Message)
    : option (list (CharacterAlias * str)) * gmap Z AutoData :=
  match guild message with
  | None => (None, ap)
  | Some g =>
      if author_bot message then (None, ap)
      else
        let lines := split_nl (content message) in
        if (length lines <=? 1)%nat then (None, ap)
        else
          let author := author_id message in
          let overrides := _get_user_overrides db author g in
          let all_aliases := all_aliases_of db author g in
          let '(ap', parsed_messages) :=
            process_lines overrides all_aliases author g (ap, []) lines in
          match parsed_messages with
          | [] => (None, ap')
          | _ :: _ => (Some parsed_messages, ap')
          end
  end.

(** [AliasManager.contains_any_alias_trigger] *)
Definition contains_any_alias_trigger (db : PersonaStore) (text : str)
    (user g : Z) : bool :=
  match match_override text (_get_user_overrides db user g) with
  | Some _ => true
  | None =>
      existsb (fun a => truthy (trigger a) && _matches_trigger text (trigger a))
              (all_aliases_of db user g)
  end.

(** ** Exceptions, effects and the Discord oracle *)

(** The exceptions the engine tells apart.  [discord.NotFound] and
    [discord.Forbidden] are the subclasses of [discord.HTTPException] with
    status 404 and 403; [code] is the JSON error code ([e.code]). *)
Inductive exn :=
| HTTPException (status code : Z)
| ValueError
| Exception.

Definition is_HTTPException (e : exn) : bool :=
  match e with HTTPException _ _ => true | _ => false end.

Definition is_NotFound (e : exn) : bool :=
  match e with HTTPException s _ => s =? 404 | _ => false end.

Definition is_Forbidden (e : exn) : bool :=
  match e with HTTPException s _ => s =? 403 | _ => false end.

(** Every call that leaves the process, in the order it is made. *)
Inductive Event :=
| EvFetch (w : Webhook)
| EvListWebhooks (ch : Z)
| EvCreateWebhook (ch : Z)
| EvDeleteWebhook (w : Webhook)
| EvWebhookSend (w : Webhook) (username avatar text : str) (thread : option Z)
| EvIncrementCount (a : CharacterAlias)
| EvMessageDelete (mid : Z)
| EvChannelSend (ch : Z).

(** The answers of Discord.  The first argument is the number of calls made
    before this one, so that two calls of the same method may be answered
    differently; [None] is a call that returns normally. *)
Record Discord := {
  webhook_fetch : nat -> Webhook -> option exn;
  channel_webhooks : nat -> Z -> exn + list Webhook;
  channel_create_webhook : nat -> Z -> exn + Webhook;
  webhook_delete : nat -> Webhook -> option exn;
  webhook_send : nat -> Webhook -> str -> option exn;
  message_delete : nat -> Z -> option exn;
  channel_send : nat -> Z -> option exn
}.

Record World := {
  mgr : AliasManager;
  trace : list Event
}.

Definition clock (w : World) : nat := length (trace w).

Definition log (e : Event) (w : World) : World :=
  {| mgr := mgr w; trace := trace w ++ [e] |}.

Definition with_mgr (f : AliasManager -> AliasManager) (w : World) : World :=
  {| mgr := f (mgr w); trace := trace w |}.

Inductive Outcome (A : Type) :=
| Ok (a : A)
| Raise (e : exn).
Arguments Ok {A} a.
Arguments Raise {A} e.

(** A computation with effects: the outcome and the world after it. *)
Definition M (A : Type) : Type := World -> Outcome A * World.

Definition ret {A} (a : A) : M A := fun w => (Ok a, w).

Definition bind {A B} (m : M A) (k : A -> M B) : M B :=
  fun w => match m w with
           | (Ok a, w') => k a w'
           | (Raise e, w') => (Raise e, w')
           end.

Declare Scope eff_scope.
Delimit Scope eff_scope with eff.
Notation "'let*' x := m 'in' k" := (bind m (fun x => k))
  (at level 10, x name, m at level 100, k at level 200) : eff_scope.

(** [try: m  except Exception: pass] *)
Definition swallow (m : M unit) : M unit :=
  fun w => match m w with
           | (Ok _, w') => (Ok tt, w')
           | (Raise _, w') => (Ok tt, w')
           end.

(** [try: m  finally: f] *)
Definition try_finally {A} (m : M A) (f : World -> World) : M A :=
  fun w => let '(r, w') := m w in (r, f w').

(** A call of the API that returns nothing. *)
Definition call (ev : Event) (answer : nat -> option exn) : M unit :=
  fun w => match answer (clock w) with
           | None => (Ok tt, log ev w)
           | Some e => (Raise e, log ev w)
           end.

(** A call of the API that returns a value. *)
Definition query {A} (ev : Event) (answer : nat -> exn + A) : M A :=
  fun w => match answer (clock w) with
           | inr a => (Ok a, log ev w)
           | inl e => (Raise e, log ev w)
           end.

(** [for x in xs: try: body(x) except Exception: pass] *)
Fixpoint for_each_swallow {A} (body : A -> M unit) (xs : list A) : M unit :=
  match xs with
  | [] => ret tt
  | x :: rest => (let* _ := swallow (body x) in for_each_swallow body rest)%eff
  end.

(** ** The delivery endpoint pool *)

(** [webhook.name in ["Quest Keeper RP", "Character Alias Bot"]] *)
Definition recognized (w : Webhook) : bool :=
  bool_decide (wh_name w = py "Quest Keeper RP")
  || bool_decide (wh_name w = py "Character Alias Bot").

Definition quota_code : Z := 30007.
Definition hard_cap : nat := 15.
Definition other_batch : nat := 5.

Section Pool.
Context (api : Discord).

Definition cache_put (ch : Z) (wh : Webhook) : M unit :=
  fun w => (Ok tt, with_mgr (fun m => set_webhook_cache (<[ch := wh]> (webhook_cache m)) m) w).

Definition cache_del (ch : Z) : M unit :=
  fun w => (Ok tt, with_mgr (fun m => set_webhook_cache (delete ch (webhook_cache m)) m) w).

Definition delete_webhook (wh : Webhook) : M unit :=
  call (EvDeleteWebhook wh) (fun t => webhook_delete api t wh).

Definition list_webhooks (ch : Z) : M (list Webhook) :=
  query (EvListWebhooks ch) (fun t => channel_webhooks api t ch).

Definition create_webhook (ch : Z) : M Webhook :=
  query (EvCreateWebhook ch) (fun t => channel_create_webhook api t ch).

(** [AliasManager._cleanup_old_webhooks]; its [except] clause logs and
    raises the exception again. *)
Definition _cleanup_old_webhooks (ch : Z) : M unit :=
  (let* webhooks := list_webhooks ch in
   let quest_keeper_webhooks := filter (fun w => recognized w = true) webhooks in
   let* _ :=
     if (1 <? length quest_keeper_webhooks)%nat
     then for_each_swallow delete_webhook (drop 1 quest_keeper_webhooks)
     else ret tt in
   if (hard_cap <=? length webhooks)%nat
   then
     let other_webhooks :=
       take other_batch (filter (fun w => recognized w = false) webhooks) in
     for_each_swallow delete_webhook other_webhooks
   else ret tt)%eff.

(** First block of [get_or_create_webhook]: the cached handle, probed.
    [None] means that creation must go on. *)
Definition probe_cache (ch : Z) : M (option Webhook) :=
  fun w =>
    match webhook_cache (mgr w) !! ch with
    | Some wh =>
        match call (EvFetch wh) (fun t => webhook_fetch api t wh) w with
        | (Ok _, w') => (Ok (Some wh), w')
        | (Raise e, w') =>
            if is_NotFound e then
              match cache_del ch w' with (_, w'') => (Ok None, w'') end
            else (Raise e, w')
        end
    | None => (Ok None, w)
    end.

(** Second block: reuse an endpoint with a recognized name; a failure of
    the listing is passed over. *)
Definition find_existing (ch : Z) : M (option Webhook) :=
  fun w =>
    match list_webhooks ch w with
    | (Ok webhooks, w') =>
        match List.find recognized webhooks with
        | Some wh => (let* _ := cache_put ch wh in ret (Some wh))%eff w'
        | None => (Ok None, w')
        end
    | (Raise _, w') => (Ok None, w')
    end.

(** [create_webhook] followed by the store into the cache. *)
Definition create_and_cache (ch : Z) : M Webhook :=
  (let* wh := create_webhook ch in let* _ := cache_put ch wh in ret wh)%eff.

(** Third block: create, and on the quota error clean up and create
    again.  Every failure leaves as a plain [Exception]. *)
Definition create_new (ch : Z) : M Webhook :=
  fun w =>
    match create_and_cache ch w with
    | (Ok wh, w') => (Ok wh, w')
    | (Raise (HTTPException _ c), w') =>
        if c =? quota_code then
          match (let* _ := _cleanup_old_webhooks ch in create_and_cache ch)%eff w' with
          | (Ok wh, w'') => (Ok wh, w'')
          | (Raise _, w'') => (Raise Exception, w'')
          end
        else (Raise Exception, w')
    | (Raise _, w') => (Raise Exception, w')
    end.

(** [AliasManager.get_or_create_webhook] *)
Definition get_or_create_webhook (ch : Z) : M Webhook :=
  (let* cached := probe_cache ch in
   match cached with
   | Some wh => ret wh
   | None =>
       let* existing := find_existing ch in
       match existing with
       | Some wh => ret wh
       | None => create_new ch
       end
   end)%eff.

(** [AliasManager.send_as_character].  [increment_message_count] keeps
    its own failures to itself. *)
Definition send_as_character (chan : Channel) (a : CharacterAlias)
    (text : str) : M unit :=
  let webhook_channel :=
    match parent chan with Some p => p | None => channel_id chan end in
  let thread :=
    match parent chan with Some _ => Some (channel_id chan) | None => None end in
  (let* webhook := get_or_create_webhook webhook_channel in
   let* _ := call (EvWebhookSend webhook (name a) (avatar_url a) text thread)
                  (fun t => webhook_send api t webhook text) in
   fun w => (Ok tt, log (EvIncrementCount a) w))%eff.

End Pool.

(** ** The dispatcher *)

Section Dispatcher.
Context (db : PersonaStore) (api : Discord).

Definition guard_add (mid : Z) (w : World) : World :=
  with_mgr (fun m => set_processing ({[mid]} ∪ processing_messages m) m) w.

(** [alias_manager.processing_messages.discard(message_id)] *)
Definition guard_discard (mid : Z) (w : World) : World :=
  with_mgr (fun m => set_processing (processing_messages m ∖ {[mid]}) m) w.

(** A resolver of [AliasManager] run on the dictionary of the world. *)
Definition resolve {A}
    (f : gmap Z AutoData -> A * gmap Z AutoData) : M A :=
  fun w =>
    let '(r, ap') := f (auto_proxy (mgr w)) in
    (Ok r, with_mgr (set_auto_proxy ap') w).

Definition delete_message (message : Message) : M unit :=
  call (EvMessageDelete (msg_id message))
       (fun t => message_delete api t (msg_id message)).

(** [set(alias.name for alias, _ in multiline_aliases)] *)
Definition unique_characters (l : list (CharacterAlias * str)) : gset str :=
  list_to_set (map (fun p => name (fst p)) l).

(** The multi-line delivery: delete the original, then send every pair,
    a failed send being logged and passed over.  A failed deletion ends
    the block; its [finally] releases the guard. *)
Definition deliver_multiline (message : Message)
    (multiline_aliases : list (CharacterAlias * str)) : M unit :=
  try_finally
    (swallow
       (let* _ := delete_message message in
        for_each_swallow
          (fun p => send_as_character api (channel message) (fst p) (snd p))
          multiline_aliases)%eff)
    (guard_discard (msg_id message)).

(** The single delivery: delete the original first, then send.
    [Forbidden] and [NotFound] are logged; any other exception is
    reported in the channel, and a failure of that notice is ignored. *)
Definition deliver_single (message : Message) (a : CharacterAlias)
    (text : str) : M unit :=
  fun w =>
    match (let* _ := delete_message message in
           send_as_character api (channel message) a text)%eff w with
    | (Ok _, w') => (Ok tt, w')
    | (Raise e, w') =>
        if is_Forbidden e then (Ok tt, w')
        else if is_NotFound e then (Ok tt, w')
        else
          swallow (call (EvChannelSend (channel_id (channel message)))
                        (fun t => channel_send api t (channel_id (channel message)))) w'
    end.

(** The statements of [on_message] inside its [try]. *)
Definition on_message_body (message : Message) : M unit :=
  fun w =>
    let message_id := msg_id message in
    if bool_decide (message_id ∈ processing_messages (mgr w)) then (Ok tt, w)
    else
      (let* multiline_aliases := resolve (fun ap => parse_multiline_aliases db ap message) in
       let multi :=
         match multiline_aliases with
         | Some l => (1 <? length l)%nat
         | None => false
         end in
       if multi then
         let l := default [] multiline_aliases in
         if (1 <? size (unique_characters l))%nat
         then deliver_multiline message l
         else ret tt
       else
         let* alias_match := resolve (fun ap => check_message_for_alias db ap message) in
         match alias_match with
         | None =>
             (* [contains_any_alias_trigger] is only logged: with no match
                the handler has nothing left to do either way *)
             let contains_trigger :=
               contains_any_alias_trigger db (content message)
                 (author_id message) (default 0 (guild message)) in
             if negb contains_trigger then ret tt else ret tt
         | Some (a, text) =>
             (* [handle_potential_consolidation] always answers False *)
             deliver_single message a text
         end)%eff (guard_add message_id w)
    .

(** [on_message]: the three early returns, then
    [try: body  except Exception: log  finally: discard(message_id)]. *)
Definition on_message (message : Message) (w : World) : World :=
  if author_bot message then w
  else match guild message with
       | None => w
       | Some _ =>
           if negb (truthy (strip (content message))) then w
           else snd (try_finally (swallow (on_message_body message))
                                 (guard_discard (msg_id message)) w)
       end.

End Dispatcher.

(** ** Usage statistics *)

(** A row of [character_aliases] with its usage columns; the timestamps
    are numbers, and a column that is NULL is [None]. *)
Record AliasRow := {
  row_alias : CharacterAlias;
  message_count : option Z;
  last_used : option Z;
  created_at : option Z
}.

(** An entry of the list returned by [get_alias_stats]. *)
Record AliasStat := {
  stat_name : str;
  stat_trigger : str;
  stat_message_count : Z;
  stat_last_used : option Z;
  stat_created_at : option Z
}.

(** The dictionary built for one alias; [alias.message_count or 0]. *)
Definition to_stat (r : AliasRow) : AliasStat :=
  {| stat_name := name (row_alias r);
     stat_trigger := trigger (row_alias r);
     stat_message_count :=
       match message_count r with
       | Some n => if n =? 0 then 0 else n
       | None => 0
       end;
     stat_last_used := last_used r;
     stat_created_at := created_at r |}.

(** [stats.sort(key=lambda x: x['message_count'], reverse=True)].  The sort
    of Python is stable, in reverse too: entries with equal keys keep their
    order.  A list has one stable sort, and this insertion sort computes
    it: an entry goes in front of the first one whose key is not greater. *)
Fixpoint insert_desc (x : AliasStat) (l : list AliasStat) : list AliasStat :=
  match l with
  | [] => [x]
  | y :: l' =>
      if stat_message_count y <=? stat_message_count x then x :: l
      else y :: insert_desc x l'
  end.

Definition sort_desc (l : list AliasStat) : list AliasStat :=
  fold_right insert_desc [] l.

(** [AliasManager.get_alias_stats], on the rows that [get_user_aliases]
    returns. *)
Definition get_alias_stats (rows : list AliasRow) : list AliasStat :=
  sort_desc (map to_stat rows).

(** ** Notions used in the statements *)

(** A message that passes the three early returns of [on_message]. *)
Definition handled (message : Message) : Prop :=
  author_bot message = false /\ guild message <> None
  /\ strip (content message) <> [].

(** The persona that the two trigger loops of [check_message_for_alias]
    select (tiers 1 to 3), if any. *)
Definition explicit_match (db : PersonaStore) (message : Message) (g : Z)
    : option CharacterAlias :=
  match match_override (content message)
          (_get_user_overrides db (author_id message) g) with
  | Some o => Some (ov_alias o)
  | None => match_alias (content message) (all_aliases_of db (author_id message) g)
  end.

(** [ap'] reads as [ap] everywhere but at [(user, g)]. *)
Definition same_elsewhere (user g : Z) (ap ap' : gmap Z AutoData) : Prop :=
  forall user' g', user' <> user \/ g' <> g ->
    sticky_state ap' user' g' = sticky_state ap user' g'.

(** A text has something to say when one of its characters is not a
    space. *)
Definition has_text (s : str) : Prop :=
  exists c, In c s /\ isspace c = false.

(** The endpoints that cleanup tries to delete, given the listing it
    starts from: every recognized endpoint but the first, and, for a
    listing of [hard_cap] endpoints or more, the first [other_batch]
    endpoints that are not recognized. *)
Definition cleanup_targets (webhooks : list Webhook) : list Webhook :=
  drop 1 (filter (fun w => recognized w = true) webhooks)
  ++ (if (hard_cap <=? length webhooks)%nat
      then take other_batch (filter (fun w => recognized w = false) webhooks)
      else []).

(** The number of [create_webhook] calls in a trace. *)
Definition is_creation (e : Event) : bool :=
  match e with EvCreateWebhook _ => true | _ => false end.

Definition creations (tr : list Event) : nat :=
  length (List.filter is_creation tr).

(** The calls that manage endpoints. *)
Definition is_pool_event (e : Event) : bool :=
  match e with
  | EvFetch _ | EvListWebhooks _ | EvCreateWebhook _ | EvDeleteWebhook _ => true
  | _ => false
  end.

(** What a step of the endpoint pool on channel [ch] may do to the world:
    it leaves the guard, the sticky cells and the cache entries of the
    other channels alone, and it only adds calls that manage endpoints to
    the trace, at most [n] creations among them. *)
Definition pool_step (ch : Z) (n : nat) (w w' : World) : Prop :=
  processing_messages (mgr w') = processing_messages (mgr w) /\
  auto_proxy (mgr w') = auto_proxy (mgr w) /\
  (forall ch', ch' <> ch ->
     webhook_cache (mgr w') !! ch' = webhook_cache (mgr w) !! ch') /\
  exists evs, trace w' = trace w ++ evs /\
              forallb is_pool_event evs = true /\ (creations evs <= n)%nat.

(** The lines of a message that are not blank. *)
Definition nonblank_lines (text : str) : list str :=
  List.filter (fun l => truthy (strip l)) (split_nl text).

(** The entries with message count [k]. *)
Definition has_count (k : Z) (s : AliasStat) : bool := stat_message_count s =? k.

(** ** Concrete personas and stores *)

(** The personas and the store of the examples: viewer 1 in guild 10 owns
    [kara] (trigger [k:]) and [milo] (trigger [m]); owner 2 shares [mira]
    (trigger [mira:]) and [quill] (trigger [quill:]) with the viewer, who
    has the personal triggers [m] for [quill] and [m.] for [mira], stored
    in that order. *)
Module Examples.

Definition avatar : str := py "https://cdn.discordapp.com/embed/avatars/0.png".

Definition kara : CharacterAlias :=
  {| alias_id := 1; user_id := 1; guild_id := 10; name := py "Kara";
     trigger := py "k:"; avatar_url := avatar |}.
Definition milo : CharacterAlias :=
  {| alias_id := 2; user_id := 1; guild_id := 10; name := py "Milo";
     trigger := py "m"; avatar_url := avatar |}.
Definition mira : CharacterAlias :=
  {| alias_id := 3; user_id := 2; guild_id := 10; name := py "Mira";
     trigger := py "mira:"; avatar_url := avatar |}.
Definition quill : CharacterAlias :=
  {| alias_id := 4; user_id := 2; guild_id := 10; name := py "Quill";
     trigger := py "quill:"; avatar_url := avatar |}.

Definition ov_quill : OverrideData :=
  {| personal_trigger := py "m"; ov_alias := quill |}.
Definition ov_mira : OverrideData :=
  {| personal_trigger := py "m."; ov_alias := mira |}.

Definition for_viewer {A} (l : list A) (user g : Z) : list A :=
  if (user =? 1) && (g =? 10) then l else [].

Definition by_name (l : list CharacterAlias) (user g : Z) (n : str)
    : option CharacterAlias :=
  List.find (fun a => (user_id a =? user) && (guild_id a =? g)
                      && bool_decide (lower (name a) = lower n)) l.

(** Two overrides of the viewer. *)
Definition db_two_overrides : PersonaStore :=
  {| get_user_aliases := for_viewer [kara; milo];
     _get_shared_aliases_for_user := for_viewer [mira; quill];
     _get_user_overrides := for_viewer [ov_quill; ov_mira];
     get_alias_by_name := by_name [kara; milo] |}.

(** The override on [mira] alone. *)
Definition db_one_override : PersonaStore :=
  {| get_user_aliases := for_viewer [kara; milo];
     _get_shared_aliases_for_user := for_viewer [mira; quill];
     _get_user_overrides := for_viewer [ov_mira];
     get_alias_by_name := by_name [kara; milo] |}.

(** The viewer's own personas only. *)
Definition db_own : PersonaStore :=
  {| get_user_aliases := for_viewer [kara; milo];
     _get_shared_aliases_for_user := fun _ _ => [];
     _get_user_overrides := fun _ _ => [];
     get_alias_by_name := by_name [kara; milo] |}.

Definition main_channel : Channel := {| channel_id := 100; parent := None |}.

Definition post (mid : Z) (text : str) : Message :=
  {| msg_id := mid; author_id := 1; author_bot := false; guild := Some 10;
     channel := main_channel; content := text |}.

Definition say (mid : Z) (text : string) : Message := post mid (py text).

(** A message of two lines. *)
Definition say2 (mid : Z) (line1 line2 : string) : Message :=
  post mid (py line1 ++ [newline] ++ py line2).

(** Auto-proxy of the viewer in guild 10. *)
Definition armed (a : option CharacterAlias) : gmap Z AutoData :=
  {[ 1 := {| ad_guild_id := 10; ad_alias := a |} ]}.

End Examples.

(** ** Concrete answers of Discord *)

(** An API in which every creation meets the quota and the listing
    fails. *)
Definition api_quota_listing_down : Discord :=
  {| webhook_fetch := fun _ _ => None;
     channel_webhooks := fun _ _ => inl (HTTPException 503 0);
     channel_create_webhook := fun _ _ => inl (HTTPException 400 quota_code);
     webhook_delete := fun _ _ => None;
     webhook_send := fun _ _ _ => None;
     message_delete := fun _ _ => None;
     channel_send := fun _ _ => None |}.

Definition world0 : World :=
  {| mgr := {| webhook_cache := ∅; processing_messages := ∅; auto_proxy := ∅ |};
     trace := [] |}.

(** An API with room for a new endpoint after cleanup: the first creation
    meets the quota, later ones succeed. *)
Definition api_quota_once : Discord :=
  {| webhook_fetch := fun _ _ => None;
     channel_webhooks := fun _ _ =>
       inr [ {| wh_id := 1; wh_name := py "Quest Keeper RP" |};
             {| wh_id := 2; wh_name := py "Character Alias Bot" |};
             {| wh_id := 3; wh_name := py "Other" |} ];
     channel_create_webhook := fun t _ =>
       if (t =? 0)%nat then inl (HTTPException 400 quota_code)
       else inr {| wh_id := 9; wh_name := py "Quest Keeper RP" |};
     webhook_delete := fun _ _ => None;
     webhook_send := fun _ _ _ => None;
     message_delete := fun _ _ => None;
     channel_send := fun _ _ => None |}.

(** An API in which every call succeeds; the channel has no endpoint yet. *)
Definition api_ok : Discord :=
  {| webhook_fetch := fun _ _ => None;
     channel_webhooks := fun _ _ => inr [];
     channel_create_webhook := fun _ _ =>
       inr {| wh_id := 9; wh_name := py "Quest Keeper RP" |};
     webhook_delete := fun _ _ => None;
     webhook_send := fun _ _ _ => None;
     message_delete := fun _ _ => None;
     channel_send := fun _ _ => None |}.

(** The world in which message 42 is being handled. *)
Definition world_busy : World :=
  {| mgr := {| webhook_cache := ∅; processing_messages := {[ 42 ]};
               auto_proxy := ∅ |};
     trace := [] |}.

(** An API in which the bot may not delete messages. *)
Definition api_no_delete : Discord :=
  {| webhook_fetch := fun _ _ => None;
     channel_webhooks := fun _ _ => inr [];
     channel_create_webhook := fun _ _ =>
       inr {| wh_id := 9; wh_name := py "Quest Keeper RP" |};
     webhook_delete := fun _ _ => None;
     webhook_send := fun _ _ _ => None;
     message_delete := fun _ _ => Some (HTTPException 403 50013);
     channel_send := fun _ _ => None |}.

(** * Properties *)

(** ** The scenarios of the specification on triggers *)

Example scenario1_match : _matches_trigger (py "k:Hello there") (py "k:") = true.
Proof. reflexivity. Qed.
Example scenario1_extract :
  _extract_content (py "k:Hello there") (py "K:") = py "Hello there".
Proof. reflexivity. Qed.
Example scenario2_extract :
  _extract_content (py "[Hi all]") (py "[text]") = py "Hi all".
Proof. reflexivity. Qed.
Example scenario2_nomatch : _matches_trigger (py "[]") (py "[text]") = false.
Proof. reflexivity. Qed.

(** ** Facts about the string operations *)

Section StringFacts.

Lemma startswith_head (c : ascii) (s : str) : startswith (c :: s) [c] = true.
Proof. simpl. rewrite Ascii.eqb_refl. reflexivity. Qed.

Lemma endswith_last (c : ascii) (s : str) : endswith (s ++ [c]) [c] = true.
Proof. unfold endswith. rewrite rev_unit. apply startswith_head. Qed.

Lemma lower_wrap (a b : ascii) (s : str) :
  lower (a :: s ++ [b]) = lower_char a :: lower s ++ [lower_char b].
Proof. unfold lower. simpl. rewrite map_app. reflexivity. Qed.

Lemma len_wrap (a b : ascii) (s : str) :
  len (a :: s ++ [b]) = Z.of_nat (length s) + 2.
Proof. unfold len. simpl. rewrite length_app. simpl. lia. Qed.

(** [("x" + s + "y")[1:-1] == s] *)
Lemma slice_wrap (a b : ascii) (s : str) : slice (a :: s ++ [b]) 1 (-1) = s.
Proof.
  unfold slice. rewrite len_wrap. unfold clamp.
  change (1 <? 0) with false. change (-1 <? 0) with true. cbv iota.
  replace (Z.min 1 (Z.of_nat (length s) + 2)) with 1 by lia.
  replace (Z.max 0 (-1 + (Z.of_nat (length s) + 2)) - 1)
    with (Z.of_nat (length s)) by lia.
  rewrite Nat2Z.id. change (Z.to_nat 1) with 1%nat.
  change (drop 1 (a :: s ++ [b])) with (s ++ [b]).
  apply take_app_length.
Qed.

Lemma truthy_nonempty (s : str) : truthy s = true <-> s <> [].
Proof. destruct s; simpl; split; congruence. Qed.

Lemma startswith_nonempty (s p : str) :
  p <> [] -> startswith s p = true -> s <> [].
Proof. destruct p, s; simpl; congruence. Qed.

Lemma lower_nonempty (s : str) : lower s <> [] -> s <> [].
Proof. destruct s; simpl; congruence. Qed.

(** A trigger cannot open with a bracket and with a parenthesis. *)
Lemma paren_not_bracket (t : str) :
  paren_style t = true -> bracket_style t = false.
Proof.
  unfold paren_style, bracket_style. destruct t as [|c t]; [discriminate|].
  simpl. destruct (Ascii.eqb c "(") eqn:E; [|discriminate].
  apply Ascii.eqb_eq in E. subst c. reflexivity.
Qed.

Lemma bracket_style_truthy (t : str) :
  bracket_style (lower t) = true -> truthy t = true.
Proof.
  unfold bracket_style. destruct t; [discriminate | reflexivity].
Qed.

Lemma paren_style_truthy (t : str) :
  paren_style (lower t) = true -> truthy t = true.
Proof.
  unfold paren_style. destruct t; [discriminate | reflexivity].
Qed.

End StringFacts.

(** ** Bracket and parenthesis triggers *)

(** C4.  For a text [s] that is not empty and a trigger of the bracket style
    (resp. the parenthesis style), the text ["[" + s + "]"] (resp.
    ["(" + s + ")"]) matches the trigger and the extracted content is
    [s.strip()]; the texts ["[]"] and ["()"] match no trigger of either
    style. *)
Theorem bracket_paren_left_inverse (s trigger : str) :
  s <> [] ->
  (bracket_style (lower trigger) = true ->
     _matches_trigger (py "[" ++ s ++ py "]") trigger = true /\
     _extract_content (py "[" ++ s ++ py "]") trigger = strip s) /\
  (paren_style (lower trigger) = true ->
     _matches_trigger (py "(" ++ s ++ py ")") trigger = true /\
     _extract_content (py "(" ++ s ++ py ")") trigger = strip s) /\
  (bracket_style (lower trigger) = true \/ paren_style (lower trigger) = true ->
     _matches_trigger (py "[]") trigger = false /\
     _matches_trigger (py "()") trigger = false).
Proof.
  intros Hs. repeat split.
  - unfold _matches_trigger. rewrite (bracket_style_truthy _ H), H.
    change (py "[" ++ s ++ py "]") with ("["%char :: s ++ ["]"%char]).
    simpl truthy. cbn [negb orb]. rewrite lower_wrap.
    change (lower_char "[") with "["%char. change (lower_char "]") with "]"%char.
    change (py "[") with ["["%char]. change (py "]") with ["]"%char].
    rewrite startswith_head.
    change ("["%char :: lower s ++ ["]"%char]) with (("["%char :: lower s) ++ ["]"%char]).
    rewrite endswith_last.
    change (("["%char :: lower s) ++ ["]"%char]) with ("["%char :: lower s ++ ["]"%char]).
    rewrite len_wrap. destruct s; [congruence|]. simpl length.
    apply andb_true_iff; split; [reflexivity|]. apply Z.ltb_lt. lia.
  - unfold _extract_content. rewrite (bracket_style_truthy _ H), H.
    change (py "[" ++ s ++ py "]") with ("["%char :: s ++ ["]"%char]).
    simpl truthy. cbn [negb orb]. rewrite lower_wrap.
    change (lower_char "[") with "["%char. change (lower_char "]") with "]"%char.
    change (py "[") with ["["%char]. change (py "]") with ["]"%char].
    rewrite startswith_head.
    change ("["%char :: lower s ++ ["]"%char]) with (("["%char :: lower s) ++ ["]"%char]).
    rewrite endswith_last. cbn [andb]. rewrite slice_wrap. reflexivity.
  - unfold _matches_trigger.
    rewrite (paren_style_truthy _ H), (paren_not_bracket _ H), H.
    change (py "(" ++ s ++ py ")") with ("("%char :: s ++ [")"%char]).
    simpl truthy. cbn [negb orb]. rewrite lower_wrap.
    change (lower_char "(") with "("%char. change (lower_char ")") with ")"%char.
    change (py "(") with ["("%char]. change (py ")") with [")"%char].
    rewrite startswith_head.
    change ("("%char :: lower s ++ [")"%char]) with (("("%char :: lower s) ++ [")"%char]).
    rewrite endswith_last.
    change (("("%char :: lower s) ++ [")"%char]) with ("("%char :: lower s ++ [")"%char]).
    rewrite len_wrap. destruct s; [congruence|]. simpl length.
    apply andb_true_iff; split; [reflexivity|]. apply Z.ltb_lt. lia.
  - unfold _extract_content.
    rewrite (paren_style_truthy _ H), (paren_not_bracket _ H), H.
    change (py "(" ++ s ++ py ")") with ("("%char :: s ++ [")"%char]).
    simpl truthy. cbn [negb orb]. rewrite lower_wrap.
    change (lower_char "(") with "("%char. change (lower_char ")") with ")"%char.
    change (py "(") with ["("%char]. change (py ")") with [")"%char].
    rewrite startswith_head.
    change ("("%char :: lower s ++ [")"%char]) with (("("%char :: lower s) ++ [")"%char]).
    rewrite endswith_last. cbn [andb]. rewrite slice_wrap. reflexivity.
  - unfold _matches_trigger. destruct H as [H|H].
    + rewrite (bracket_style_truthy _ H), H. reflexivity.
    + rewrite (paren_style_truthy _ H), (paren_not_bracket _ H), H. reflexivity.
  - unfold _matches_trigger. destruct H as [H|H].
    + rewrite (bracket_style_truthy _ H), H. reflexivity.
    + rewrite (paren_style_truthy _ H), (paren_not_bracket _ H), H. reflexivity.
Qed.

Lemma bracket_paren_left_inverse_witness :
  _matches_trigger (py "[Hi all]") (py "[text]") = true /\
  _extract_content (py "[Hi all]") (py "[text]") = strip (py "Hi all").
Proof.
  assert (Hs : py "Hi all" <> []) by discriminate.
  exact (proj1 (bracket_paren_left_inverse (py "Hi all") (py "[text]") Hs) eq_refl).
Defined.

(** ** Priority of personal overrides *)

Section OverridePriority.

(** The first loop returns the earliest override that matches. *)
Lemma match_override_first (text : str) (os1 os2 : list OverrideData)
    (o : OverrideData) :
  (forall o', In o' os1 -> _matches_trigger text (personal_trigger o') = false) ->
  _matches_trigger text (personal_trigger o) = true ->
  match_override text (os1 ++ o :: os2) = Some o.
Proof.
  intros Hpre Ho. induction os1 as [|o1 os1 IH]; simpl.
  - rewrite Ho. reflexivity.
  - rewrite (Hpre o1 (or_introl eq_refl)). apply IH.
    intros o' Hin. apply Hpre. right. exact Hin.
Qed.

Lemma match_override_some (text : str) (os : list OverrideData) (o : OverrideData) :
  match_override text os = Some o ->
  In o os /\ _matches_trigger text (personal_trigger o) = true.
Proof.
  induction os as [|o1 os IH]; simpl; [discriminate|].
  destruct (_matches_trigger text (personal_trigger o1)) eqn:E.
  - intros [= <-]. split; [left; reflexivity | exact E].
  - intros H. destruct (IH H) as [Hin Hm]. split; [right; exact Hin | exact Hm].
Qed.

Lemma match_override_none (text : str) (os : list OverrideData) :
  match_override text os = None ->
  forall o, In o os -> _matches_trigger text (personal_trigger o) = false.
Proof.
  induction os as [|o1 os IH]; simpl; intros H o Hin; [contradiction|].
  destruct (_matches_trigger text (personal_trigger o1)) eqn:E; [discriminate|].
  destruct Hin as [<-|Hin]; [exact E | exact (IH H o Hin)].
Qed.

Lemma match_alias_some (text : str) (als : list CharacterAlias) (a : CharacterAlias) :
  match_alias text als = Some a ->
  In a als /\ _matches_trigger text (trigger a) = true.
Proof.
  induction als as [|a1 als IH]; simpl; [discriminate|].
  destruct (_matches_trigger text (trigger a1)) eqn:E.
  - intros [= <-]. split; [left; reflexivity | exact E].
  - intros H. destruct (IH H) as [Hin Hm]. split; [right; exact Hin | exact Hm].
Qed.

Lemma match_alias_none (text : str) (als : list CharacterAlias) :
  match_alias text als = None ->
  forall a, In a als -> _matches_trigger text (trigger a) = false.
Proof.
  induction als as [|a1 als IH]; simpl; intros H a Hin; [contradiction|].
  destruct (_matches_trigger text (trigger a1)) eqn:E; [discriminate|].
  destruct Hin as [<-|Hin]; [exact E | exact (IH H a Hin)].
Qed.

End OverridePriority.

(** C1, as stated, fails: with the personal triggers [m] (for Quill) and
    [m.] (for Mira) stored in this order, the text [m. hi] matches the
    override on Mira, yet resolution selects Quill with content [. hi]. *)
Lemma override_priority_counterexample :
  let message := Examples.say 7 "m. hi" in
  In Examples.ov_mira (_get_user_overrides Examples.db_two_overrides 1 10) /\
  _matches_trigger (content message) (personal_trigger Examples.ov_mira) = true /\
  fst (check_message_for_alias Examples.db_two_overrides ∅ message)
    = Some (Examples.quill, py ". hi") /\
  fst (check_message_for_alias Examples.db_two_overrides ∅ message)
    <> Some (Examples.mira,
             _extract_content (content message) (personal_trigger Examples.ov_mira)).
Proof.
  cbv zeta. split; [right; left; reflexivity|].
  split; [reflexivity|]. split; [reflexivity|]. discriminate.
Qed.

(** C1, amended.  When the viewer has an override on persona P whose
    personal trigger matches the text, and no override stored before it
    matches, resolution returns P with the content extracted with the
    personal trigger, whatever the triggers of the viewer's own personas
    and of the shared personas (P's original trigger among them) are. *)
Theorem override_first_match_wins (db : PersonaStore) (ap : gmap Z AutoData)
    (message : Message) (g : Z) (os1 os2 : list OverrideData) (o : OverrideData) :
  guild message = Some g ->
  author_bot message = false ->
  _get_user_overrides db (author_id message) g = os1 ++ o :: os2 ->
  (forall o', In o' os1 ->
     _matches_trigger (content message) (personal_trigger o') = false) ->
  _matches_trigger (content message) (personal_trigger o) = true ->
  check_message_for_alias db ap message
  = (Some (ov_alias o, _extract_content (content message) (personal_trigger o)),
     update_sticky ap (author_id message) g (ov_alias o)).
Proof.
  intros Hg Hb Hov Hpre Ho. unfold check_message_for_alias.
  rewrite Hg, Hb, Hov, (match_override_first _ _ _ _ Hpre Ho). reflexivity.
Qed.

Lemma override_first_match_wins_witness :
  check_message_for_alias Examples.db_one_override ∅ (Examples.say 7 "m. hi")
  = (Some (Examples.mira, py "hi"), ∅).
Proof.
  etrans.
  - apply (override_first_match_wins Examples.db_one_override ∅
             (Examples.say 7 "m. hi") 10 [] [] Examples.ov_mira);
      [reflexivity | reflexivity | reflexivity | intros o' [] | reflexivity].
  - vm_compute. reflexivity.
Defined.

(** ** The sticky cell *)

Section StickyFacts.
Implicit Types (ap : gmap Z AutoData) (a : CharacterAlias).

Lemma sticky_update_same ap user g a :
  sticky_state ap user g <> Disabled ->
  sticky_state (update_sticky ap user g a) user g = EnabledWith a.
Proof.
  unfold sticky_state, update_sticky.
  destruct (ap !! user) as [ad|] eqn:E; [|congruence].
  destruct (ad_guild_id ad =? g) eqn:Eg; [|congruence].
  intros _. rewrite lookup_insert_eq. simpl. rewrite Eg. reflexivity.
Qed.

Lemma sticky_update_disabled ap user g a :
  sticky_state ap user g = Disabled -> update_sticky ap user g a = ap.
Proof.
  unfold sticky_state, update_sticky.
  destruct (ap !! user) as [ad|] eqn:E; [|reflexivity].
  destruct (ad_guild_id ad =? g) eqn:Eg; [|reflexivity].
  destruct (ad_alias ad); discriminate.
Qed.

(** The update touches one user only. *)
Lemma update_sticky_other_user ap user g a user' :
  user' <> user -> update_sticky ap user g a !! user' = ap !! user'.
Proof.
  intros Hne. unfold update_sticky.
  destruct (ap !! user) as [ad|]; [|reflexivity].
  destruct (ad_guild_id ad =? g); [|reflexivity].
  apply lookup_insert_ne. congruence.
Qed.

(** The update keeps the guild of the cell. *)
Lemma update_sticky_other_guild ap user g a g' :
  g' <> g ->
  sticky_state (update_sticky ap user g a) user g' = sticky_state ap user g'.
Proof.
  intros Hne. unfold sticky_state, update_sticky.
  destruct (ap !! user) as [ad|] eqn:E; [|rewrite E; reflexivity].
  destruct (ad_guild_id ad =? g) eqn:Eg; [|rewrite E; reflexivity].
  rewrite lookup_insert_eq. simpl.
  apply Z.eqb_eq in Eg. rewrite Eg.
  destruct (Z.eqb_spec g g'); [congruence | reflexivity].
Qed.

Lemma sticky_alias_state ap user g :
  sticky_alias ap user g
  = match sticky_state ap user g with EnabledWith a => Some a | _ => None end.
Proof.
  unfold sticky_alias, sticky_state.
  destruct (ap !! user) as [ad|]; [|reflexivity].
  destruct (ad_guild_id ad =? g); [|reflexivity].
  destruct (ad_alias ad); reflexivity.
Qed.

End StickyFacts.

(** C5.  When a trigger of tiers 1 to 3 selects persona [a] and the state
    of the author in the guild is not [Disabled], the resolution returns
    [a] and leaves the state [EnabledWith a]; when no trigger matches, the
    dictionary is returned as it was, and the result is the sticky persona
    with the whole text (tier 4) or nothing. *)
Theorem sticky_update_side_effect (db : PersonaStore) (ap : gmap Z AutoData)
    (message : Message) (g : Z) :
  guild message = Some g ->
  author_bot message = false ->
  (forall a, explicit_match db message g = Some a ->
     sticky_state ap (author_id message) g <> Disabled ->
     (exists c, fst (check_message_for_alias db ap message) = Some (a, c)) /\
     sticky_state (snd (check_message_for_alias db ap message))
                  (author_id message) g = EnabledWith a) /\
  (explicit_match db message g = None ->
     snd (check_message_for_alias db ap message) = ap /\
     fst (check_message_for_alias db ap message)
     = match sticky_state ap (author_id message) g with
       | EnabledWith a => Some (a, content message)
       | _ => None
       end).
Proof.
  intros Hg Hb. unfold explicit_match, check_message_for_alias.
  rewrite Hg, Hb. split.
  - intros a Ha Hen.
    destruct (match_override _ _) as [o|].
    + injection Ha as <-. simpl. split; [eauto|].
      apply sticky_update_same, Hen.
    + rewrite Ha. simpl. split; [eauto|]. apply sticky_update_same, Hen.
  - intros Hnone.
    destruct (match_override _ _) as [o|]; [discriminate|].
    rewrite Hnone, sticky_alias_state.
    destruct (sticky_state ap (author_id message) g); simpl; auto.
Qed.

Lemma sticky_update_side_effect_witness :
  sticky_state
    (snd (check_message_for_alias Examples.db_own (Examples.armed None)
            (Examples.say 7 "k:Hello there"))) 1 10
  = EnabledWith Examples.kara.
Proof.
  refine (proj2 (proj1 (sticky_update_side_effect Examples.db_own
            (Examples.armed None) (Examples.say 7 "k:Hello there") 10
            eq_refl eq_refl) Examples.kara eq_refl _)).
  vm_compute. discriminate.
Defined.

(** ** Scope of the sticky cell *)

(** C3, as stated, fails: the viewer waits for a first trigger in guild 10;
    enabling auto-proxy in guild 20 turns it off in guild 10, and so does
    disabling, which takes no guild at all. *)
Lemma sticky_scope_counterexample :
  sticky_state (Examples.armed None) 1 10 = EnabledUnset /\
  sticky_state
    (fst (enable_auto_proxy Examples.db_own (Examples.armed None) 1 20 [])) 1 10
  = Disabled /\
  sticky_state (fst (disable_auto_proxy (Examples.armed None) 1)) 1 10 = Disabled.
Proof. repeat split; vm_compute; reflexivity. Qed.

Section Scope.
Implicit Types (ap : gmap Z AutoData).

Lemma same_elsewhere_refl user g ap : same_elsewhere user g ap ap.
Proof. intros ? ? _. reflexivity. Qed.

Lemma same_elsewhere_trans user g ap1 ap2 ap3 :
  same_elsewhere user g ap1 ap2 -> same_elsewhere user g ap2 ap3 ->
  same_elsewhere user g ap1 ap3.
Proof. intros H12 H23 u' g' Hne. rewrite (H23 u' g' Hne). apply H12, Hne. Qed.

Lemma same_elsewhere_update user g ap a :
  same_elsewhere user g ap (update_sticky ap user g a).
Proof.
  intros u' g' Hne. destruct (decide (u' = user)) as [->|Hu].
  - destruct Hne as [Hne|Hne]; [congruence|].
    apply update_sticky_other_guild, Hne.
  - unfold sticky_state. rewrite update_sticky_other_user by exact Hu.
    reflexivity.
Qed.

Lemma check_same_elsewhere db ap message g :
  guild message = Some g ->
  same_elsewhere (author_id message) g ap
    (snd (check_message_for_alias db ap message)).
Proof.
  intros Hg. unfold check_message_for_alias. rewrite Hg.
  destruct (author_bot message); [apply same_elsewhere_refl|].
  destruct (match_override _ _); [apply same_elsewhere_update|].
  destruct (match_alias _ _); [apply same_elsewhere_update|].
  destruct (sticky_alias _ _ _); apply same_elsewhere_refl.
Qed.

Lemma process_line_same_elsewhere ovs als author g st raw_line :
  same_elsewhere author g (fst st)
    (fst (process_line ovs als author g st raw_line)).
Proof.
  destruct st as [ap parsed]. unfold process_line.
  destruct (negb (truthy (strip raw_line))); [apply same_elsewhere_refl|].
  destruct (line_explicit _ _ _) as [[a c]|]; [apply same_elsewhere_update|].
  destruct (sticky_alias _ _ _); apply same_elsewhere_refl.
Qed.

Lemma process_lines_same_elsewhere ovs als author g lines st :
  same_elsewhere author g (fst st)
    (fst (process_lines ovs als author g st lines)).
Proof.
  revert st. induction lines as [|l lines IH]; intros st; simpl.
  - apply same_elsewhere_refl.
  - eapply same_elsewhere_trans; [|apply IH].
    apply process_line_same_elsewhere.
Qed.

Lemma parse_same_elsewhere db ap message g :
  guild message = Some g ->
  same_elsewhere (author_id message) g ap
    (snd (parse_multiline_aliases db ap message)).
Proof.
  intros Hg. unfold parse_multiline_aliases. rewrite Hg.
  destruct (author_bot message); [apply same_elsewhere_refl|].
  destruct (length _ <=? 1)%nat; [apply same_elsewhere_refl|].
  pose proof (process_lines_same_elsewhere
                (_get_user_overrides db (author_id message) g)
                (all_aliases_of db (author_id message) g)
                (author_id message) g (split_nl (content message)) (ap, [])) as H.
  destruct (process_lines _ _ _ _ _ _) as [ap' parsed]. simpl in H.
  destruct parsed; exact H.
Qed.

End Scope.

(** C3, amended.  The dictionary holds one cell per operator, and the cell
    carries one guild.  A trigger match in guild [g] (single-line or
    multi-line resolution) leaves the state of the operator in every other
    guild, and of every other operator, as it was; enabling in [g] with
    success leaves the operator [Disabled] in every other guild, and
    without success changes nothing; disabling leaves the operator
    [Disabled] in every guild; both leave the other operators' cells
    alone. *)
Theorem sticky_scope (db : PersonaStore) (ap : gmap Z AutoData) (user g g' : Z) :
  g' <> g ->
  (forall message, author_id message = user -> guild message = Some g ->
     same_elsewhere user g ap (snd (check_message_for_alias db ap message)) /\
     same_elsewhere user g ap (snd (parse_multiline_aliases db ap message))) /\
  (forall alias_name,
     (snd (enable_auto_proxy db ap user g alias_name) = true ->
      sticky_state (fst (enable_auto_proxy db ap user g alias_name)) user g'
      = Disabled) /\
     (snd (enable_auto_proxy db ap user g alias_name) = false ->
      fst (enable_auto_proxy db ap user g alias_name) = ap)) /\
  (forall g'', sticky_state (fst (disable_auto_proxy ap user)) user g'' = Disabled) /\
  (forall user' alias_name, user' <> user ->
     fst (enable_auto_proxy db ap user g alias_name) !! user' = ap !! user' /\
     fst (disable_auto_proxy ap user) !! user' = ap !! user').
Proof.
  intros Hne. repeat split.
  - subst user. apply check_same_elsewhere. assumption.
  - subst user. apply parse_same_elsewhere. assumption.
  - unfold enable_auto_proxy.
    destruct (truthy alias_name);
      [destruct (get_alias_by_name db user g alias_name); [|discriminate]|];
      intros _; unfold sticky_state; simpl; rewrite lookup_insert_eq; simpl;
      destruct (Z.eqb_spec g g'); congruence.
  - unfold enable_auto_proxy.
    destruct (truthy alias_name);
      [destruct (get_alias_by_name db user g alias_name)|];
      simpl; congruence.
  - unfold disable_auto_proxy, sticky_state.
    destruct (ap !! user) eqn:E; simpl.
    + rewrite lookup_delete_eq. reflexivity.
    + rewrite E. reflexivity.
  - unfold enable_auto_proxy.
    destruct (truthy alias_name);
      [destruct (get_alias_by_name db user g alias_name)|];
      simpl; try reflexivity; apply lookup_insert_ne; congruence.
  - unfold disable_auto_proxy.
    destruct (ap !! user); simpl; [|reflexivity].
    apply lookup_delete_ne. congruence.
Qed.

Lemma sticky_scope_witness :
  sticky_state
    (snd (check_message_for_alias Examples.db_own
            (Examples.armed (Some Examples.kara)) (Examples.say 7 "k:hi"))) 1 20
  = sticky_state (Examples.armed (Some Examples.kara)) 1 20.
Proof.
  assert (Hne : 20 <> 10) by lia.
  exact (proj1 (proj1 (sticky_scope Examples.db_own
                         (Examples.armed (Some Examples.kara)) 1 10 20 Hne)
                  (Examples.say 7 "k:hi") eq_refl eq_refl)
           1 20 (or_intror Hne)).
Defined.

(** ** The multi-line splitter *)

Section StripFacts.

Lemma lstrip_keeps (s : str) (c : ascii) :
  In c s -> isspace c = false -> In c (lstrip s).
Proof.
  induction s as [|d s IH]; simpl; [tauto|].
  intros [->|Hin] Hc.
  - rewrite Hc. left. reflexivity.
  - destruct (isspace d); [apply IH; assumption | right; assumption].
Qed.

Lemma lstrip_incl (s : str) (c : ascii) : In c (lstrip s) -> In c s.
Proof.
  induction s as [|d s IH]; simpl; [tauto|].
  destruct (isspace d); [intros H; right; apply IH, H | tauto].
Qed.

Lemma lstrip_head (s : str) (c : ascii) (t : str) :
  lstrip s = c :: t -> isspace c = false.
Proof.
  induction s as [|d s IH]; simpl; [discriminate|].
  destruct (isspace d) eqn:E; [exact IH | congruence].
Qed.

Lemma strip_keeps (s : str) (c : ascii) :
  In c s -> isspace c = false -> In c (strip s).
Proof.
  intros Hin Hc. unfold strip, rstrip.
  apply lstrip_keeps; [|exact Hc].
  apply in_rev. rewrite rev_involutive.
  apply lstrip_keeps; [|exact Hc]. apply in_rev in Hin. exact Hin.
Qed.

Lemma strip_incl (s : str) (c : ascii) : In c (strip s) -> In c s.
Proof.
  unfold strip, rstrip. intros H. apply lstrip_incl in H.
  apply in_rev in H. apply lstrip_incl in H. apply in_rev. exact H.
Qed.

(** [s.strip()] is truthy exactly when [s] has text. *)
Lemma strip_truthy (s : str) : truthy (strip s) = true <-> has_text s.
Proof.
  split.
  - destruct (strip s) as [|c t] eqn:E; [discriminate|]. intros _.
    exists c. split.
    + apply strip_incl. rewrite E. left. reflexivity.
    + unfold strip in E. exact (lstrip_head _ _ _ E).
  - intros (c & Hin & Hc). pose proof (strip_keeps s c Hin Hc) as H.
    destruct (strip s); [contradiction | reflexivity].
Qed.

Lemma strip_has_text (s : str) : has_text s -> has_text (strip s).
Proof.
  intros (c & Hin & Hc). exists c. split; [apply strip_keeps|]; assumption.
Qed.

End StripFacts.

Section Splitter.
Context (overrides : list OverrideData) (all_aliases : list CharacterAlias)
        (author g : Z).

Abbreviation step := (process_line overrides all_aliases author g).
Abbreviation run := (process_lines overrides all_aliases author g).

Lemma line_override_has_text line a c :
  line_override line overrides = Some (a, c) -> has_text c.
Proof.
  induction overrides as [|o os IH]; simpl; [discriminate|].
  destruct (_matches_trigger line (personal_trigger o)); [|exact IH].
  destruct (truthy (strip _)) eqn:E; [|exact IH].
  intros [= <- <-]. apply strip_truthy, E.
Qed.

Lemma line_alias_has_text line a c :
  line_alias line all_aliases = Some (a, c) -> has_text c.
Proof.
  induction all_aliases as [|a1 als IH]; simpl; [discriminate|].
  destruct (_matches_trigger line (trigger a1)); [|exact IH].
  destruct (truthy (strip _)) eqn:E; [|exact IH].
  intros [= <- <-]. apply strip_truthy, E.
Qed.

(** A pair emitted by the trigger loops never has blank content. *)
Lemma line_explicit_has_text line a c :
  line_explicit overrides all_aliases line = Some (a, c) -> has_text c.
Proof.
  unfold line_explicit.
  destruct (line_override line overrides) as [[a' c']|] eqn:E.
  - intros [= <- <-]. exact (line_override_has_text _ _ _ E).
  - apply line_alias_has_text.
Qed.

(** The pairs already parsed stay, new ones are appended. *)
Lemma process_line_app ap parsed raw_line :
  step (ap, parsed) raw_line
  = (fst (step (ap, []) raw_line), parsed ++ snd (step (ap, []) raw_line)).
Proof.
  unfold process_line.
  destruct (negb (truthy (strip raw_line))); simpl; [rewrite app_nil_r; reflexivity|].
  destruct (line_explicit _ _ _) as [[a c]|]; simpl; [reflexivity|].
  destruct (sticky_alias _ _ _); simpl; [reflexivity|].
  rewrite app_nil_r. reflexivity.
Qed.

Lemma process_lines_app lines ap parsed :
  run (ap, parsed) lines
  = (fst (run (ap, []) lines), parsed ++ snd (run (ap, []) lines)).
Proof.
  revert ap parsed. induction lines as [|l lines IH]; intros ap parsed.
  - simpl. rewrite app_nil_r. reflexivity.
  - change (run (ap, parsed) (l :: lines)) with (run (step (ap, parsed) l) lines).
    change (run (ap, []) (l :: lines)) with (run (step (ap, []) l) lines).
    rewrite (process_line_app ap parsed).
    destruct (step (ap, []) l) as [ap1 out1]. cbn [fst snd].
    rewrite IH. rewrite (IH ap1 out1). cbn [fst snd].
    rewrite app_assoc. reflexivity.
Qed.

Lemma process_lines_cat l1 l2 st : run st (l1 ++ l2) = run (run st l1) l2.
Proof. unfold process_lines. apply fold_left_app. Qed.

Lemma process_line_has_text ap parsed raw_line :
  Forall (fun p => has_text (snd p)) parsed ->
  Forall (fun p => has_text (snd p)) (snd (step (ap, parsed) raw_line)).
Proof.
  intros Hp. unfold process_line.
  destruct (truthy (strip raw_line)) eqn:Et; simpl; [|exact Hp].
  destruct (line_explicit _ _ _) as [[a c]|] eqn:E; simpl.
  - apply Forall_app. split; [exact Hp|]. constructor; [|constructor].
    exact (line_explicit_has_text _ _ _ E).
  - destruct (sticky_alias _ _ _); simpl; [|exact Hp].
    apply Forall_app. split; [exact Hp|]. constructor; [|constructor].
    simpl. apply strip_has_text, strip_truthy, Et.
Qed.

Lemma process_lines_has_text lines st :
  Forall (fun p => has_text (snd p)) (snd st) ->
  Forall (fun p => has_text (snd p)) (snd (run st lines)).
Proof.
  revert st. induction lines as [|l lines IH]; intros [ap parsed] Hp.
  - exact Hp.
  - change (run (ap, parsed) (l :: lines)) with (run (step (ap, parsed) l) lines).
    apply IH. apply process_line_has_text. exact Hp.
Qed.

(** A line whose trigger loops emit nothing goes to the sticky persona
    whole. *)
Lemma process_line_fallback ap parsed raw_line a :
  truthy (strip raw_line) = true ->
  line_explicit overrides all_aliases (strip raw_line) = None ->
  sticky_alias ap author g = Some a ->
  step (ap, parsed) raw_line = (ap, parsed ++ [(a, strip raw_line)]).
Proof.
  intros Ht He Hs. unfold process_line. rewrite Ht, He, Hs. reflexivity.
Qed.

Lemma process_line_explicit ap parsed raw_line a c :
  line_explicit overrides all_aliases (strip raw_line) = Some (a, c) ->
  truthy (strip raw_line) = true ->
  step (ap, parsed) raw_line
  = (update_sticky ap author g a, parsed ++ [(a, c)]).
Proof.
  intros He Ht. unfold process_line. rewrite Ht, He. reflexivity.
Qed.

Lemma process_line_blank st raw_line :
  truthy (strip raw_line) = false -> step st raw_line = st.
Proof.
  intros Ht. destruct st. unfold process_line. rewrite Ht. reflexivity.
Qed.

Lemma process_lines_blank st lines :
  Forall (fun l => truthy (strip l) = false) lines -> run st lines = st.
Proof.
  induction 1 as [|l ls Hl _ IH]; [reflexivity|].
  change (run st (l :: ls)) with (run (step st l) ls).
  rewrite process_line_blank by exact Hl. exact IH.
Qed.

(** Auto-proxy stays enabled for the author in the guild throughout. *)
Lemma process_line_enabled st raw_line :
  sticky_state (fst st) author g <> Disabled ->
  sticky_state (fst (step st raw_line)) author g <> Disabled.
Proof.
  destruct st as [ap parsed]. simpl. intros Hen. unfold process_line.
  destruct (negb (truthy (strip raw_line))); [exact Hen|].
  destruct (line_explicit _ _ _) as [[a c]|]; simpl.
  - rewrite sticky_update_same by exact Hen. discriminate.
  - destruct (sticky_alias _ _ _); exact Hen.
Qed.

Lemma process_lines_enabled lines st :
  sticky_state (fst st) author g <> Disabled ->
  sticky_state (fst (run st lines)) author g <> Disabled.
Proof.
  revert st. induction lines as [|l lines IH]; intros st Hen.
  - exact Hen.
  - change (run st (l :: lines)) with (run (step st l) lines).
    apply IH, process_line_enabled, Hen.
Qed.

End Splitter.

Section SplitterEmpty.

Lemma matches_empty (t : str) : _matches_trigger [] t = false.
Proof. reflexivity. Qed.

Lemma line_explicit_empty ovs als : line_explicit ovs als [] = None.
Proof.
  unfold line_explicit.
  assert (Ho : line_override [] ovs = None)
    by (induction ovs as [|o os IH]; simpl; [reflexivity | exact IH]).
  rewrite Ho. induction als as [|a als IH]; simpl; [reflexivity | exact IH].
Qed.

Lemma line_explicit_truthy ovs als line r :
  line_explicit ovs als line = Some r -> truthy line = true.
Proof.
  destruct line; [rewrite line_explicit_empty; discriminate | reflexivity].
Qed.

End SplitterEmpty.

(** C10.  Every pair returned by the splitter has content that is not
    empty after trimming.  A line for which the trigger loops emit nothing
    (because no trigger matches, or because every match leaves blank
    content) goes, when a sticky persona is set, to that persona with the
    whole trimmed line as content. *)
Theorem splitter_content_never_blank (db : PersonaStore) (ap : gmap Z AutoData)
    (message : Message) :
  (forall l, fst (parse_multiline_aliases db ap message) = Some l ->
     Forall (fun p => strip (snd p) <> []) l) /\
  (forall ovs als author g ap0 parsed raw_line a,
     strip raw_line <> [] ->
     line_explicit ovs als (strip raw_line) = None ->
     sticky_alias ap0 author g = Some a ->
     process_line ovs als author g (ap0, parsed) raw_line
     = (ap0, parsed ++ [(a, strip raw_line)])).
Proof.
  split.
  - intros l. unfold parse_multiline_aliases.
    destruct (guild message) as [g|]; [|discriminate].
    destruct (author_bot message); [discriminate|].
    destruct (length _ <=? 1)%nat; [discriminate|].
    assert (H0 : Forall (fun p : CharacterAlias * str => has_text (snd p)) [])
      by constructor.
    pose proof (process_lines_has_text
                  (_get_user_overrides db (author_id message) g)
                  (all_aliases_of db (author_id message) g)
                  (author_id message) g (split_nl (content message)) (ap, [])
                  H0) as H.
    destruct (process_lines _ _ _ _ _ _) as [ap' parsed]. simpl in H.
    destruct parsed as [|p parsed]; [discriminate|]. intros [= <-].
    eapply Forall_impl; [exact H|]. intros q Hq. simpl in Hq.
    apply truthy_nonempty, strip_truthy, Hq.
  - intros ovs als author g ap0 parsed raw_line a Ht He Hs.
    apply process_line_fallback; [apply truthy_nonempty, Ht | exact He | exact Hs].
Qed.

Lemma splitter_content_never_blank_witness :
  Forall (fun p => strip (snd p) <> [])
    [(Examples.milo, py "k:"); (Examples.milo, py "hello")].
Proof.
  apply (proj1 (splitter_content_never_blank Examples.db_own
                  (Examples.armed (Some Examples.milo))
                  (Examples.say2 7 "k:" "hello"))).
  vm_compute. reflexivity.
Defined.

(** The line [k:] is a trigger and nothing else: the splitter hands it to
    the sticky persona whole. *)
Example trigger_only_line_falls_through :
  fst (parse_multiline_aliases Examples.db_own (Examples.armed (Some Examples.milo))
         (Examples.say2 7 "k:" "k: hi"))
  = Some [(Examples.milo, py "k:"); (Examples.kara, py "hi")].
Proof. vm_compute. reflexivity. Qed.

(** C6, as stated, fails: the first line [k:] matches the trigger of Kara
    (resolved alone it gives Kara, with empty content), the second line
    matches no trigger, and the splitter resolves it to the persona that was
    sticky before, Milo. *)
Lemma sticky_next_line_counterexample :
  let db := Examples.db_own in
  let ap := Examples.armed (Some Examples.milo) in
  sticky_state ap 1 10 = EnabledWith Examples.milo /\
  fst (check_message_for_alias db ap (Examples.say 7 "k:"))
    = Some (Examples.kara, []) /\
  explicit_match db (Examples.say 7 "hello") 10 = None /\
  fst (parse_multiline_aliases db ap (Examples.say2 7 "k:" "hello"))
    = Some [(Examples.milo, py "k:"); (Examples.milo, py "hello")] /\
  Examples.milo <> Examples.kara.
Proof. cbv zeta. repeat split; try (vm_compute; reflexivity). discriminate. Qed.

(** C6, amended.  In a multi-line message handled with auto-proxy enabled
    for the author in the guild, when the trigger loops emit line N for
    persona [A] (a trigger matches and leaves content that is not blank),
    the next line that is not blank, if the loops emit nothing for it, is
    given to [A] with the whole trimmed line as content. *)
Theorem sticky_visible_to_next_line (db : PersonaStore) (ap : gmap Z AutoData)
    (message : Message) (g : Z) (pre blanks post : list str) (lN lN1 : str)
    (A : CharacterAlias) (c : str) :
  let ovs := _get_user_overrides db (author_id message) g in
  let als := all_aliases_of db (author_id message) g in
  guild message = Some g ->
  author_bot message = false ->
  split_nl (content message) = pre ++ lN :: blanks ++ lN1 :: post ->
  sticky_state ap (author_id message) g <> Disabled ->
  line_explicit ovs als (strip lN) = Some (A, c) ->
  Forall (fun l => truthy (strip l) = false) blanks ->
  strip lN1 <> [] ->
  line_explicit ovs als (strip lN1) = None ->
  exists out_post,
    fst (parse_multiline_aliases db ap message)
    = Some (snd (process_lines ovs als (author_id message) g (ap, []) pre)
            ++ (A, c) :: (A, strip lN1) :: out_post).
Proof.
  intros ovs als Hg Hb Hsplit Hen HN Hblank Ht1 HN1.
  unfold parse_multiline_aliases. rewrite Hg, Hb, Hsplit.
  fold ovs als.
  assert (Hlen : (length (pre ++ lN :: blanks ++ lN1 :: post) <=? 1)%nat = false).
  { apply Nat.leb_gt. rewrite !length_app. simpl. rewrite length_app. simpl. lia. }
  rewrite Hlen.
  rewrite process_lines_cat.
  pose proof (process_lines_enabled ovs als (author_id message) g pre (ap, []) Hen) as Hen1.
  destruct (process_lines ovs als (author_id message) g (ap, []) pre)
    as [ap1 out_pre]. cbn [fst snd] in *.
  change (process_lines ovs als (author_id message) g (ap1, out_pre)
            (lN :: blanks ++ lN1 :: post))
    with (process_lines ovs als (author_id message) g
            (process_line ovs als (author_id message) g (ap1, out_pre) lN)
            (blanks ++ lN1 :: post)).
  rewrite (process_line_explicit _ _ _ _ _ _ _ _ _ HN (line_explicit_truthy _ _ _ _ HN)).
  rewrite process_lines_cat.
  rewrite (process_lines_blank _ _ _ _ _ blanks Hblank).
  change (process_lines ovs als (author_id message) g ?st (lN1 :: post))
    with (process_lines ovs als (author_id message) g
            (process_line ovs als (author_id message) g st lN1) post).
  rewrite (process_line_fallback _ _ _ _ _ _ _ A).
  - rewrite process_lines_app.
    exists (snd (process_lines ovs als (author_id message) g
                   (update_sticky ap1 (author_id message) g A, []) post)).
    cbn [fst snd]. rewrite <- !app_assoc. simpl.
    destruct out_pre; reflexivity.
  - apply truthy_nonempty, Ht1.
  - exact HN1.
  - rewrite sticky_alias_state, sticky_update_same by exact Hen1. reflexivity.
Qed.

Lemma sticky_visible_to_next_line_witness :
  exists out_post,
    fst (parse_multiline_aliases Examples.db_own (Examples.armed (Some Examples.milo))
           (Examples.say2 7 "k: hi" "hello"))
    = Some ([] ++ (Examples.kara, py "hi") :: (Examples.kara, strip (py "hello"))
               :: out_post).
Proof.
  apply (sticky_visible_to_next_line Examples.db_own
           (Examples.armed (Some Examples.milo)) (Examples.say2 7 "k: hi" "hello")
           10 [] [] [] (py "k: hi") (py "hello") Examples.kara (py "hi"));
    try reflexivity; try (vm_compute; discriminate).
  constructor.
Defined.

(** ** Quota recovery of the endpoint pool *)

Section Recovery.
Context (api : Discord).

Lemma clock_log e w : clock (log e w) = S (clock w).
Proof. unfold clock, log. simpl. rewrite length_app. simpl. lia. Qed.

Lemma world_eta w : {| mgr := mgr w; trace := trace w |} = w.
Proof. destruct w. reflexivity. Qed.

(** The deletion loop never raises and logs one call per endpoint. *)
Lemma for_each_delete (xs : list Webhook) (w : World) :
  for_each_swallow (delete_webhook api) xs w
  = (Ok tt, {| mgr := mgr w; trace := trace w ++ map EvDeleteWebhook xs |}).
Proof.
  revert w. induction xs as [|x xs IH]; intros w.
  - simpl. rewrite app_nil_r, world_eta. reflexivity.
  - simpl. unfold bind, swallow, delete_webhook, call.
    destruct (webhook_delete api (clock w) x); rewrite IH; simpl;
      rewrite <- app_assoc; reflexivity.
Qed.

Lemma cleanup_listing_fails ch w e :
  channel_webhooks api (clock w) ch = inl e ->
  _cleanup_old_webhooks api ch w = (Raise e, log (EvListWebhooks ch) w).
Proof.
  intros H. unfold _cleanup_old_webhooks, bind, list_webhooks, query.
  rewrite H. reflexivity.
Qed.

Lemma cleanup_listing_succeeds ch w webhooks :
  channel_webhooks api (clock w) ch = inr webhooks ->
  _cleanup_old_webhooks api ch w
  = (Ok tt, {| mgr := mgr w;
               trace := trace w ++ EvListWebhooks ch
                          :: map EvDeleteWebhook (cleanup_targets webhooks) |}).
Proof.
  intros H. unfold _cleanup_old_webhooks, bind, list_webhooks, query.
  rewrite H. unfold cleanup_targets.
  set (qk := filter (fun w => recognized w = true) webhooks).
  set (others := take other_batch (filter (fun w => recognized w = false) webhooks)).
  assert (Hdup : (if (1 <? length qk)%nat
                  then for_each_swallow (delete_webhook api) (drop 1 qk)
                  else ret tt) (log (EvListWebhooks ch) w)
                 = for_each_swallow (delete_webhook api) (drop 1 qk)
                     (log (EvListWebhooks ch) w)).
  { destruct (1 <? length qk)%nat eqn:E; [reflexivity|].
    apply Nat.ltb_ge in E. destruct qk as [|q [|q' qk']]; simpl in E; try lia;
      reflexivity. }
  rewrite Hdup, for_each_delete. unfold log. cbn [mgr trace].
  destruct (hard_cap <=? length webhooks)%nat.
  - rewrite for_each_delete. cbn [mgr trace].
    rewrite map_app, <- !app_assoc. reflexivity.
  - unfold ret. rewrite app_nil_r, <- app_assoc. reflexivity.
Qed.

Lemma creations_app tr1 tr2 : creations (tr1 ++ tr2) = (creations tr1 + creations tr2)%nat.
Proof. unfold creations. rewrite List.filter_app, length_app. reflexivity. Qed.

Lemma creations_deletes xs : creations (map EvDeleteWebhook xs) = 0%nat.
Proof. induction xs as [|x xs IH]; [reflexivity | exact IH]. Qed.

(** At most [other_batch] endpoints with other names are deleted, and
    they are deleted whenever the channel would still hold [hard_cap]
    endpoints after the duplicates are gone. *)
Lemma cleanup_targets_bounded (webhooks : list Webhook) :
  let qk := filter (fun w => recognized w = true) webhooks in
  let others := filter (fun w => recognized w = false) webhooks in
  exists dropped,
    cleanup_targets webhooks = drop 1 qk ++ dropped /\
    (length dropped <= other_batch)%nat /\
    ((hard_cap <= length webhooks - length (drop 1 qk))%nat ->
     dropped = take other_batch others).
Proof.
  cbv zeta. unfold cleanup_targets.
  destruct (hard_cap <=? length webhooks)%nat eqn:E.
  - eexists. split; [reflexivity|]. split; [|reflexivity].
    rewrite length_take. lia.
  - exists []. split; [reflexivity|]. split; [simpl; lia|].
    apply Nat.leb_gt in E. lia.
Qed.

End Recovery.

(** C9, as stated, fails: the first creation meets the quota, the listing
    that opens cleanup fails, and creation is not tried again: the trace
    holds one creation. *)
Lemma quota_recovery_counterexample :
  channel_create_webhook api_quota_listing_down (clock world0) 100
    = inl (HTTPException 400 quota_code) /\
  create_new api_quota_listing_down 100 world0
    = (Raise Exception,
       {| mgr := mgr world0; trace := [EvCreateWebhook 100; EvListWebhooks 100] |}) /\
  creations (trace (snd (create_new api_quota_listing_down 100 world0))) = 1%nat.
Proof. repeat split; vm_compute; reflexivity. Qed.

(** C9, amended.  When a creation fails with the quota code, cleanup lists
    the endpoints of the channel.  If the listing fails, the creation block
    raises and creation is not tried again.  If it succeeds, cleanup tries
    to delete the endpoints of [cleanup_targets] (failures of a deletion
    are ignored), and creation is tried again exactly once: its success is
    the result, stored in the cache, and its failure makes the block raise
    with nothing tried after it. *)
Theorem quota_recovery (api : Discord) (ch : Z) (w : World) (status : Z) :
  channel_create_webhook api (clock w) ch = inl (HTTPException status quota_code) ->
  match channel_webhooks api (S (clock w)) ch with
  | inl _ =>
      create_new api ch w
      = (Raise Exception,
         {| mgr := mgr w;
            trace := trace w ++ [EvCreateWebhook ch; EvListWebhooks ch] |})
  | inr webhooks =>
      let before_retry :=
        trace w ++ [EvCreateWebhook ch; EvListWebhooks ch]
                ++ map EvDeleteWebhook (cleanup_targets webhooks) in
      creations (trace (snd (create_new api ch w))) = (creations (trace w) + 2)%nat /\
      match channel_create_webhook api (length before_retry) ch with
      | inr wh =>
          create_new api ch w
          = (Ok wh,
             {| mgr := set_webhook_cache (<[ch := wh]> (webhook_cache (mgr w))) (mgr w);
                trace := before_retry ++ [EvCreateWebhook ch] |})
      | inl _ =>
          create_new api ch w
          = (Raise Exception,
             {| mgr := mgr w; trace := before_retry ++ [EvCreateWebhook ch] |})
      end
  end.
Proof.
  intros H1.
  assert (Hfirst : create_and_cache api ch w
                   = (Raise (HTTPException status quota_code),
                      log (EvCreateWebhook ch) w)).
  { unfold create_and_cache, bind, create_webhook, query. rewrite H1. reflexivity. }
  assert (Hnew : create_new api ch w
                 = match (let* _ := _cleanup_old_webhooks api ch in
                          create_and_cache api ch)%eff (log (EvCreateWebhook ch) w) with
                   | (Ok wh, w'') => (Ok wh, w'')
                   | (Raise _, w'') => (Raise Exception, w'')
                   end).
  { unfold create_new. rewrite Hfirst, Z.eqb_refl. reflexivity. }
  rewrite Hnew. clear Hnew Hfirst. unfold bind.
  destruct (channel_webhooks api (S (clock w)) ch) as [e|webhooks] eqn:Hl.
  - rewrite (cleanup_listing_fails api ch _ e) by (rewrite clock_log; exact Hl).
    unfold log. simpl. rewrite <- app_assoc. reflexivity.
  - rewrite (cleanup_listing_succeeds api ch _ webhooks)
      by (rewrite clock_log; exact Hl).
    cbv zeta.
    set (before := trace w ++ [EvCreateWebhook ch; EvListWebhooks ch]
                     ++ map EvDeleteWebhook (cleanup_targets webhooks)).
    assert (Hb : trace (log (EvCreateWebhook ch) w) ++ EvListWebhooks ch
                   :: map EvDeleteWebhook (cleanup_targets webhooks) = before).
    { unfold before, log. simpl. rewrite <- app_assoc. reflexivity. }
    rewrite Hb. change (mgr (log (EvCreateWebhook ch) w)) with (mgr w).
    unfold create_and_cache, bind, create_webhook, query.
    change (clock {| mgr := mgr w; trace := before |}) with (length before).
    assert (Hc : creations (before ++ [EvCreateWebhook ch])
                 = (creations (trace w) + 2)%nat).
    { unfold before. rewrite !creations_app, creations_deletes.
      change (creations [EvCreateWebhook ch; EvListWebhooks ch]) with 1%nat.
      change (creations [EvCreateWebhook ch]) with 1%nat. lia. }
    destruct (channel_create_webhook api (length before) ch) as [e|wh];
      simpl; (split; [exact Hc | reflexivity]).
Qed.

Lemma quota_recovery_witness :
  creations (trace (snd (create_new api_quota_once 100 world0))) = 2%nat /\
  create_new api_quota_once 100 world0
  = (Ok {| wh_id := 9; wh_name := py "Quest Keeper RP" |},
     {| mgr := set_webhook_cache
                 (<[100 := {| wh_id := 9; wh_name := py "Quest Keeper RP" |}]>
                    (webhook_cache (mgr world0))) (mgr world0);
        trace := [EvCreateWebhook 100; EvListWebhooks 100;
                  EvDeleteWebhook {| wh_id := 2; wh_name := py "Character Alias Bot" |};
                  EvCreateWebhook 100] |}).
Proof.
  exact (quota_recovery api_quota_once 100 world0 400 eq_refl).
Defined.

(** With nothing in the cache and no recognized endpoint in the listing
    (or a listing that fails), [get_or_create_webhook] comes down to the
    creation block. *)
Lemma get_or_create_reaches_creation (api : Discord) (ch : Z) (w : World) :
  webhook_cache (mgr w) !! ch = None ->
  match channel_webhooks api (clock w) ch with
  | inr webhooks => List.find recognized webhooks = None
  | inl _ => True
  end ->
  get_or_create_webhook api ch w = create_new api ch (log (EvListWebhooks ch) w).
Proof.
  intros Hc Hl. unfold get_or_create_webhook, bind, probe_cache.
  rewrite Hc. unfold find_existing, list_webhooks, query.
  destruct (channel_webhooks api (clock w) ch) as [e|webhooks]; [reflexivity|].
  rewrite Hl. reflexivity.
Qed.

(** Without an endpoint nothing is sent: the failure of
    [get_or_create_webhook] is the failure of [send_as_character]. *)
Lemma send_fails_without_endpoint (api : Discord) (chan : Channel)
    (a : CharacterAlias) (text : str) (w w' : World) (e : exn) :
  get_or_create_webhook api
    (match parent chan with Some p => p | None => channel_id chan end) w
  = (Raise e, w') ->
  send_as_character api chan a text w = (Raise e, w').
Proof. intros H. unfold send_as_character, bind. rewrite H. reflexivity. Qed.

(** ** The processing guard *)

Section Guard.
Context (db : PersonaStore) (api : Discord).

(** Whatever the body does, the [finally] clause leaves the id out. *)
Lemma finally_discards {A} (m : M A) (mid : Z) (w : World) :
  mid ∉ processing_messages (mgr (snd (try_finally m (guard_discard mid) w))).
Proof.
  unfold try_finally. destruct (m w) as [r w']. simpl.
  apply not_elem_of_difference. right. apply elem_of_singleton. reflexivity.
Qed.

Lemma on_message_handled (message : Message) (w : World) :
  handled message ->
  on_message db api message w
  = snd (try_finally (swallow (on_message_body db api message))
                     (guard_discard (msg_id message)) w).
Proof.
  intros (Hb & Hg & Hc). unfold on_message. rewrite Hb.
  destruct (guild message); [|congruence].
  apply truthy_nonempty in Hc. rewrite Hc. reflexivity.
Qed.

Lemma on_message_ignored (message : Message) (w : World) :
  ~ handled message -> on_message db api message w = w.
Proof.
  intros Hn. unfold on_message.
  destruct (author_bot message) eqn:Hb; [reflexivity|].
  destruct (guild message) eqn:Hg; [|reflexivity].
  destruct (truthy (strip (content message))) eqn:Hc; [|reflexivity].
  exfalso. apply Hn.
  repeat split; [exact Hb | congruence | apply truthy_nonempty, Hc].
Qed.

(** A message whose id is in the guard: nothing is resolved, deleted or
    sent, and the [finally] clause takes the id out of the guard. *)
Lemma duplicate_short_circuit (message : Message) (w : World) :
  handled message ->
  msg_id message ∈ processing_messages (mgr w) ->
  on_message db api message w = guard_discard (msg_id message) w.
Proof.
  intros Hh Hin. rewrite on_message_handled by exact Hh.
  unfold try_finally, swallow, on_message_body.
  rewrite bool_decide_eq_true_2 by exact Hin. reflexivity.
Qed.

End Guard.

(** C8.  After [on_message] has handled a message (one that passes the
    early returns for bots, direct messages and blank texts), whatever the
    API answers and whichever path is taken, the id of the message is not
    in the guard; a message stopped by an early return leaves the world as
    it was. *)
Theorem guard_never_leaks (db : PersonaStore) (api : Discord)
    (message : Message) (w : World) :
  (handled message ->
   msg_id message ∉ processing_messages (mgr (on_message db api message w))) /\
  (~ handled message -> on_message db api message w = w).
Proof.
  split.
  - intros Hh. rewrite on_message_handled by exact Hh. apply finally_discards.
  - apply on_message_ignored.
Qed.

Lemma guard_never_leaks_witness :
  msg_id (Examples.say 42 "k:Hello there")
  ∉ processing_messages
      (mgr (on_message Examples.db_own api_ok (Examples.say 42 "k:Hello there") world0)).
Proof.
  apply (proj1 (guard_never_leaks Examples.db_own api_ok
                  (Examples.say 42 "k:Hello there") world0)).
  repeat split; [discriminate | vm_compute; discriminate].
Defined.

(** C7 on the code: message 42 arrives while message 42 is being handled.
    Nothing is resolved, deleted or sent, but the guard loses the entry of
    the handling in flight. *)
Theorem duplicate_releases_guard :
  handled (Examples.say 42 "k:Hello there") /\
  42 ∈ processing_messages (mgr world_busy) /\
  on_message Examples.db_own api_ok (Examples.say 42 "k:Hello there") world_busy
  = {| mgr := {| webhook_cache := ∅; processing_messages := ∅; auto_proxy := ∅ |};
       trace := [] |} /\
  42 ∉ processing_messages
         (mgr (on_message Examples.db_own api_ok
                 (Examples.say 42 "k:Hello there") world_busy)).
Proof.
  assert (Hh : handled (Examples.say 42 "k:Hello there")).
  { repeat split; [discriminate | vm_compute; discriminate]. }
  assert (Hin : 42 ∈ processing_messages (mgr world_busy)).
  { simpl. set_solver. }
  split; [exact Hh|]. split; [exact Hin|].
  rewrite (duplicate_short_circuit Examples.db_own api_ok _ _ Hh Hin).
  split.
  - vm_compute. reflexivity.
  - unfold guard_discard, with_mgr, set_processing, world_busy. simpl.
    apply not_elem_of_difference. right. apply elem_of_singleton. reflexivity.
Qed.

(** ** Multi-line messages of one persona *)

(** C2 on the code: both lines of the message carry the trigger of Kara.
    The splitter returns two pairs that name one persona; [on_message]
    returns at once: the original is not deleted and nothing is sent,
    although single-line resolution of the same message selects Kara, and
    the one-line message [k:hello] is delivered. *)
Theorem same_persona_multiline_dropped :
  let message := Examples.say2 7 "k:hello" "k:world" in
  fst (parse_multiline_aliases Examples.db_own ∅ message)
    = Some [(Examples.kara, py "hello"); (Examples.kara, py "world")] /\
  size (unique_characters [(Examples.kara, py "hello"); (Examples.kara, py "world")])
    = 1%nat /\
  fst (check_message_for_alias Examples.db_own ∅ message)
    = Some (Examples.kara, py "hello" ++ [newline] ++ py "k:world") /\
  on_message Examples.db_own api_ok message world0 = world0 /\
  trace (on_message Examples.db_own api_ok (Examples.say 7 "k:hello") world0)
    = [EvMessageDelete 7; EvListWebhooks 100; EvCreateWebhook 100;
       EvWebhookSend {| wh_id := 9; wh_name := py "Quest Keeper RP" |}
         (py "Kara") Examples.avatar (py "hello") None;
       EvIncrementCount Examples.kara].
Proof.
  cbv zeta. repeat split; vm_compute; reflexivity.
Qed.

(** * Further properties of the engine *)

(** ** Matching and extraction *)

Section MatchingFacts.

Lemma lower_char_idem (c : ascii) : lower_char (lower_char c) = lower_char c.
Proof. destruct c as [[] [] [] [] [] [] [] []]; reflexivity. Qed.

Lemma lower_idem (s : str) : lower (lower s) = lower s.
Proof.
  unfold lower. induction s as [|c s IH]; simpl; [reflexivity|].
  rewrite lower_char_idem, IH. reflexivity.
Qed.


Lemma lower_length (s : str) : length (lower s) = length s.
Proof. unfold lower. apply length_map. Qed.

Lemma truthy_lower (s : str) : truthy (lower s) = truthy s.
Proof. destruct s; reflexivity. Qed.

Lemma lower_eq_truthy (s s' : str) : lower s = lower s' -> truthy s = truthy s'.
Proof. intros H. rewrite <- (truthy_lower s), H. apply truthy_lower. Qed.

Lemma lower_eq_len (s s' : str) : lower s = lower s' -> len s = len s'.
Proof.
  intros H. unfold len. rewrite <- (lower_length s), H, lower_length. reflexivity.
Qed.


Lemma strip_nil : strip [] = [].
Proof. reflexivity. Qed.


End MatchingFacts.

(** X1.  Matching ignores case, on the text and on the trigger: two texts
    with the same lower-case form and two triggers with the same
    lower-case form match alike. *)
Theorem matches_trigger_case_insensitive (m m' t t' : str) :
  lower m = lower m' -> lower t = lower t' ->
  _matches_trigger m t = _matches_trigger m' t'.
Proof.
  intros Hm Ht. unfold _matches_trigger.
  rewrite (lower_eq_truthy _ _ Hm), (lower_eq_truthy _ _ Ht),
    (lower_eq_len _ _ Hm), Hm, Ht. reflexivity.
Qed.

Lemma matches_trigger_case_insensitive_witness :
  _matches_trigger (py "K:Hello") (py "k:") = _matches_trigger (py "k:hello") (py "K:").
Proof.
  apply matches_trigger_case_insensitive; reflexivity.
Defined.



Section TrimFacts.

Lemma lstrip_idem (s : str) : lstrip (lstrip s) = lstrip s.
Proof.
  induction s as [|c s IH]; simpl; [reflexivity|].
  destruct (isspace c) eqn:E; [exact IH|]. simpl. rewrite E. reflexivity.
Qed.

(** [lstrip] drops a prefix. *)
Lemma lstrip_suffix (s : str) : exists ws, s = ws ++ lstrip s.
Proof.
  induction s as [|c s [ws IH]]; simpl; [exists []; reflexivity|].
  destruct (isspace c).
  - exists (c :: ws). simpl. rewrite <- IH. reflexivity.
  - exists []. reflexivity.
Qed.

(** A text whose first character is not a space is left alone. *)
Lemma lstrip_fixed (c : ascii) (s : str) :
  isspace c = false -> lstrip (c :: s) = c :: s.
Proof. intros E. simpl. rewrite E. reflexivity. Qed.

Lemma rstrip_lstrip (u : str) : rstrip u = u -> rstrip (lstrip u) = lstrip u.
Proof.
  intros Hu. destruct (lstrip u) as [|c r] eqn:E; [reflexivity|].
  destruct (lstrip_suffix u) as [ws Hws]. rewrite E in Hws.
  unfold rstrip in *.
  assert (Hrev : rev u = rev (c :: r) ++ rev ws)
    by (rewrite Hws at 1; apply rev_app_distr).
  destruct (rev (c :: r)) as [|d q] eqn:Er.
  { apply (f_equal (@length ascii)) in Er. rewrite length_rev in Er. discriminate. }
  assert (Hd : isspace d = false).
  { apply (f_equal (@rev ascii)) in Hu. rewrite rev_involutive in Hu.
    rewrite Hrev in Hu. simpl in Hu.
    destruct (isspace d) eqn:Ed; [|reflexivity].
    exfalso. pose proof (lstrip_suffix (q ++ rev ws)) as [ws' Hs].
    rewrite Hu in Hs. apply (f_equal (@length ascii)) in Hs.
    rewrite !length_app in Hs. simpl in Hs. rewrite !length_app in Hs. lia. }
  rewrite (lstrip_fixed d q Hd), <- Er. apply rev_involutive.
Qed.

Lemma rstrip_idem (s : str) : rstrip (rstrip s) = rstrip s.
Proof.
  unfold rstrip. rewrite rev_involutive, lstrip_idem. reflexivity.
Qed.

(** [s.strip().strip() == s.strip()] *)
Lemma strip_idem (s : str) : strip (strip s) = strip s.
Proof.
  unfold strip. rewrite (rstrip_lstrip (rstrip s)) by apply rstrip_idem.
  apply lstrip_idem.
Qed.

End TrimFacts.

(** X3.  The content extracted with a trigger that matches is trimmed:
    stripping it again changes nothing. *)
Theorem extracted_content_is_trimmed (message trigger : str) :
  _matches_trigger message trigger = true ->
  strip (_extract_content message trigger) = _extract_content message trigger.
Proof.
  unfold _matches_trigger, _extract_content.
  destruct (negb (truthy message) || negb (truthy trigger)); [discriminate|].
  destruct (bracket_style (lower trigger)).
  - intros H. apply andb_true_iff in H as [H _]. rewrite H. apply strip_idem.
  - destruct (paren_style (lower trigger)).
    + intros H. apply andb_true_iff in H as [H _]. rewrite H. apply strip_idem.
    + case_bool_decide; [reflexivity|].
      destruct (startswith (lower message) (lower trigger));
        [intros _; apply strip_idem | discriminate].
Qed.

Lemma extracted_content_is_trimmed_witness :
  strip (_extract_content (py "[  Hi all ]") (py "[text]"))
  = _extract_content (py "[  Hi all ]") (py "[text]").
Proof.
  apply extracted_content_is_trimmed. reflexivity.
Defined.

(** ** Resolution *)

Section ResolutionFacts.
Implicit Types (ap : gmap Z AutoData) (a : CharacterAlias).

Lemma update_sticky_twice ap user g a :
  update_sticky (update_sticky ap user g a) user g a = update_sticky ap user g a.
Proof.
  unfold update_sticky at 2 3.
  destruct (ap !! user) as [ad|] eqn:E.
  - destruct (ad_guild_id ad =? g) eqn:Eg.
    + unfold update_sticky. rewrite lookup_insert_eq. simpl. rewrite Eg.
      apply insert_insert_eq.
    + unfold update_sticky. rewrite E, Eg. reflexivity.
  - unfold update_sticky. rewrite E. reflexivity.
Qed.

(** The update never adds a cell, never removes one, and keeps its
    guild. *)
Lemma update_sticky_guild ap user g a user' :
  ad_guild_id <$> (update_sticky ap user g a !! user')
  = ad_guild_id <$> (ap !! user').
Proof.
  unfold update_sticky. destruct (ap !! user) as [ad|] eqn:E; [|reflexivity].
  destruct (ad_guild_id ad =? g); [|reflexivity].
  destruct (decide (user' = user)) as [->|Hne].
  - rewrite lookup_insert_eq, E. reflexivity.
  - rewrite lookup_insert_ne by congruence. reflexivity.
Qed.

Lemma sticky_alias_after_update ap user g a :
  sticky_alias (update_sticky ap user g a) user g
  = match ap !! user with
    | Some ad => if ad_guild_id ad =? g then Some a else None
    | None => None
    end.
Proof.
  unfold sticky_alias, update_sticky.
  destruct (ap !! user) as [ad|] eqn:E; [|rewrite E; reflexivity].
  destruct (ad_guild_id ad =? g) eqn:Eg.
  - rewrite lookup_insert_eq. simpl. rewrite Eg. reflexivity.
  - rewrite E, Eg. reflexivity.
Qed.

End ResolutionFacts.

(** X4.  Resolving the same message again, on the dictionary left by the
    first resolution, gives the same persona and content and leaves the
    dictionary as the first resolution left it. *)
Theorem resolution_is_idempotent (db : PersonaStore) (ap : gmap Z AutoData)
    (message : Message) :
  check_message_for_alias db (snd (check_message_for_alias db ap message)) message
  = check_message_for_alias db ap message.
Proof.
  unfold check_message_for_alias.
  destruct (guild message) as [g|]; [|reflexivity].
  destruct (author_bot message); [reflexivity|].
  destruct (match_override _ _) as [o|]; simpl.
  { rewrite update_sticky_twice. reflexivity. }
  destruct (match_alias _ _) as [a|]; simpl.
  { rewrite update_sticky_twice. reflexivity. }
  destruct (sticky_alias ap (author_id message) g) eqn:E; simpl; rewrite E;
    reflexivity.
Qed.

(** X5.  Resolution never turns auto-proxy on or off: after the
    single-line or the multi-line resolver, every user has a cell exactly
    when they had one before, with the same guild. *)
Theorem resolution_keeps_cells (db : PersonaStore) (ap : gmap Z AutoData)
    (message : Message) (user : Z) :
  ad_guild_id <$> (snd (check_message_for_alias db ap message) !! user)
    = ad_guild_id <$> (ap !! user) /\
  ad_guild_id <$> (snd (parse_multiline_aliases db ap message) !! user)
    = ad_guild_id <$> (ap !! user).
Proof.
  split.
  - unfold check_message_for_alias.
    destruct (guild message) as [g|]; [|reflexivity].
    destruct (author_bot message); [reflexivity|].
    destruct (match_override _ _); [apply update_sticky_guild|].
    destruct (match_alias _ _); [apply update_sticky_guild|].
    destruct (sticky_alias _ _ _); reflexivity.
  - unfold parse_multiline_aliases.
    destruct (guild message) as [g|]; [|reflexivity].
    destruct (author_bot message); [reflexivity|].
    destruct (length _ <=? 1)%nat; [reflexivity|].
    set (ovs := _get_user_overrides db (author_id message) g).
    set (als := all_aliases_of db (author_id message) g).
    assert (H : forall lines st,
               ad_guild_id <$> (fst (process_lines ovs als (author_id message) g st lines) !! user)
               = ad_guild_id <$> (fst st !! user)).
    { induction lines as [|l lines IH]; intros st; [reflexivity|].
      change (process_lines ovs als (author_id message) g st (l :: lines))
        with (process_lines ovs als (author_id message) g
                (process_line ovs als (author_id message) g st l) lines).
      rewrite IH. destruct st as [ap0 parsed]. unfold process_line.
      destruct (negb (truthy (strip l))); [reflexivity|].
      destruct (line_explicit _ _ _) as [[a c]|]; [apply update_sticky_guild|].
      destruct (sticky_alias _ _ _); reflexivity. }
    specialize (H (split_nl (content message)) (ap, [])).
    destruct (process_lines _ _ _ _ _ _) as [ap' parsed]. simpl in H.
    destruct parsed; exact H.
Qed.

(** X6.  [contains_any_alias_trigger] says whether one of the trigger
    loops of the single-line resolver matches; hence it is false
    whenever that resolver returns nothing. *)
Theorem contains_trigger_agrees (db : PersonaStore) (ap : gmap Z AutoData)
    (message : Message) (g : Z) :
  guild message = Some g ->
  author_bot message = false ->
  (contains_any_alias_trigger db (content message) (author_id message) g = true
   <-> explicit_match db message g <> None) /\
  (fst (check_message_for_alias db ap message) = None ->
   contains_any_alias_trigger db (content message) (author_id message) g = false).
Proof.
  intros Hg Hb.
  assert (Hex : forall text als,
             existsb (fun a => truthy (trigger a) && _matches_trigger text (trigger a)) als
             = match match_alias text als with Some _ => true | None => false end).
  { intros text als. induction als as [|a als IH]; simpl; [reflexivity|].
    destruct (_matches_trigger text (trigger a)) eqn:E.
    - assert (Ht : truthy (trigger a) = true).
      { unfold _matches_trigger in E. destruct (truthy (trigger a)); [reflexivity|].
        rewrite orb_true_r in E. discriminate. }
      rewrite Ht. reflexivity.
    - rewrite andb_false_r. exact IH. }
  assert (Hiff : contains_any_alias_trigger db (content message) (author_id message) g = true
                 <-> explicit_match db message g <> None).
  { unfold contains_any_alias_trigger, explicit_match.
    destruct (match_override _ _); [split; [discriminate | reflexivity]|].
    rewrite Hex. destruct (match_alias _ _); split; congruence. }
  split; [exact Hiff|].
  intros Hnone. apply not_true_is_false. intros Hc. apply Hiff in Hc. apply Hc.
  revert Hnone. unfold check_message_for_alias, explicit_match. rewrite Hg, Hb.
  destruct (match_override _ _); [discriminate|].
  destruct (match_alias _ _); [discriminate | reflexivity].
Qed.

Lemma contains_trigger_agrees_witness :
  contains_any_alias_trigger Examples.db_own (py "just chatting") 1 10 = false.
Proof.
  apply (proj2 (contains_trigger_agrees Examples.db_own ∅
                  (Examples.say 7 "just chatting") 10 eq_refl eq_refl)).
  reflexivity.
Defined.

(** Without a line break [split] returns the text as its one line. *)
Lemma split_nl_single (s : str) : ~ In newline s -> split_nl s = [s].
Proof.
  induction s as [|c s IH]; intros Hn; [reflexivity|]. simpl.
  destruct (Ascii.eqb c newline) eqn:E.
  - apply Ascii.eqb_eq in E. exfalso. apply Hn. left. exact E.
  - rewrite IH; [reflexivity|]. intros Hin. apply Hn. right. exact Hin.
Qed.

(** X7.  A message without a line break is not for the splitter: it
    returns nothing and leaves the dictionary alone. *)
Theorem single_line_not_split (db : PersonaStore) (ap : gmap Z AutoData)
    (message : Message) :
  ~ In newline (content message) ->
  parse_multiline_aliases db ap message = (None, ap).
Proof.
  intros Hnl. unfold parse_multiline_aliases.
  rewrite (split_nl_single _ Hnl).
  destruct (guild message); [|reflexivity].
  destruct (author_bot message); reflexivity.
Qed.

Lemma single_line_not_split_witness :
  parse_multiline_aliases Examples.db_own (Examples.armed None)
    (Examples.say 7 "k:Hello there")
  = (None, Examples.armed None).
Proof.
  apply single_line_not_split. vm_compute. intuition discriminate.
Defined.

(** X8.  The splitter returns a list only when it has a pair to return,
    and it returns at most one pair for each line that is not blank. *)
Theorem splitter_output_bounded (db : PersonaStore) (ap : gmap Z AutoData)
    (message : Message) (l : list (CharacterAlias * str)) :
  fst (parse_multiline_aliases db ap message) = Some l ->
  (1 <= length l <= length (nonblank_lines (content message)))%nat.
Proof.
  unfold parse_multiline_aliases, nonblank_lines.
  destruct (guild message) as [g|]; [|discriminate].
  destruct (author_bot message); [discriminate|].
  destruct (length _ <=? 1)%nat; [discriminate|].
  set (ovs := _get_user_overrides db (author_id message) g).
  set (als := all_aliases_of db (author_id message) g).
  assert (H : forall lines st,
             (length (snd (process_lines ovs als (author_id message) g st lines))
              <= length (snd st)
                 + length (List.filter (fun l => truthy (strip l)) lines))%nat).
  { induction lines as [|x lines IH]; intros st; [simpl; lia|].
    change (process_lines ovs als (author_id message) g st (x :: lines))
      with (process_lines ovs als (author_id message) g
              (process_line ovs als (author_id message) g st x) lines).
    etrans; [apply IH|]. destruct st as [ap0 parsed]. unfold process_line. simpl.
    destruct (truthy (strip x)); simpl; [|lia].
    destruct (line_explicit _ _ _) as [[a c]|]; simpl.
    - rewrite length_app. simpl. lia.
    - destruct (sticky_alias _ _ _); simpl; [rewrite length_app; simpl|]; lia. }
  specialize (H (split_nl (content message)) (ap, [])).
  destruct (process_lines _ _ _ _ _ _) as [ap' parsed]. simpl in H.
  destruct parsed as [|p parsed]; [discriminate|]. intros [= <-].
  simpl in *. lia.
Qed.

Lemma splitter_output_bounded_witness :
  (1 <= length [(Examples.milo, py "k:"); (Examples.milo, py "hello")]
   <= length (nonblank_lines (content (Examples.say2 7 "k:" "hello"))))%nat.
Proof.
  apply (splitter_output_bounded Examples.db_own
           (Examples.armed (Some Examples.milo)) (Examples.say2 7 "k:" "hello")).
  vm_compute. reflexivity.
Defined.

(** ** Enabling and disabling auto-proxy *)

(** X9.  After [enable_auto_proxy] has returned True, the status in that
    guild is the persona named (none for the empty name, where the state
    is [EnabledUnset]), and [disable_auto_proxy] returns True and removes
    the cell. *)
Theorem enable_then_status (db : PersonaStore) (ap : gmap Z AutoData)
    (user g : Z) (alias_name : str) :
  snd (enable_auto_proxy db ap user g alias_name) = true ->
  let ap' := fst (enable_auto_proxy db ap user g alias_name) in
  get_auto_proxy_status ap' user g
    = (if truthy alias_name then get_alias_by_name db user g alias_name else None) /\
  sticky_state ap' user g <> Disabled /\
  disable_auto_proxy ap' user = (delete user ap, true).
Proof.
  unfold enable_auto_proxy, get_auto_proxy_status, sticky_state, disable_auto_proxy.
  destruct (truthy alias_name).
  - destruct (get_alias_by_name db user g alias_name) as [a|]; [|discriminate].
    intros _. simpl. rewrite lookup_insert_eq. simpl. rewrite Z.eqb_refl.
    repeat split; [discriminate|]. rewrite delete_insert_eq. reflexivity.
  - intros _. simpl. rewrite lookup_insert_eq. simpl. rewrite Z.eqb_refl.
    repeat split; [discriminate|]. rewrite delete_insert_eq. reflexivity.
Qed.

Lemma enable_then_status_witness :
  get_auto_proxy_status
    (fst (enable_auto_proxy Examples.db_own ∅ 1 10 (py "kara"))) 1 10
  = Some Examples.kara.
Proof.
  exact (proj1 (enable_then_status Examples.db_own ∅ 1 10 (py "kara") eq_refl)).
Defined.

(** X10.  [disable_auto_proxy] returns True exactly when the user had a
    cell; afterwards the status is empty in every guild, the other users
    keep their cells, and disabling again returns False and changes
    nothing. *)
Theorem disable_reports_change (ap : gmap Z AutoData) (user : Z) :
  let ap' := fst (disable_auto_proxy ap user) in
  (snd (disable_auto_proxy ap user) = true <-> is_Some (ap !! user)) /\
  ap' = delete user ap /\
  (forall g, get_auto_proxy_status ap' user g = None) /\
  disable_auto_proxy ap' user = (ap', false).
Proof.
  unfold disable_auto_proxy, get_auto_proxy_status.
  destruct (ap !! user) as [ad|] eqn:E; simpl.
  - rewrite lookup_delete_eq. repeat split; eauto.
  - rewrite E. repeat split; try discriminate.
    + intros [x Hx]. discriminate.
    + symmetry. apply delete_id. exact E.
Qed.

(** ** The endpoint pool *)

Section PoolFacts.
Context (api : Discord).

Lemma pool_step_refl ch n w : pool_step ch n w w.
Proof.
  repeat split. exists []. rewrite app_nil_r. repeat split.
  change (creations []) with 0%nat. lia.
Qed.

Lemma pool_step_trans ch n1 n2 w1 w2 w3 :
  pool_step ch n1 w1 w2 -> pool_step ch n2 w2 w3 ->
  pool_step ch (n1 + n2) w1 w3.
Proof.
  intros (Hp1 & Ha1 & Hc1 & evs1 & Ht1 & Hf1 & Hn1)
         (Hp2 & Ha2 & Hc2 & evs2 & Ht2 & Hf2 & Hn2).
  repeat split.
  - congruence.
  - congruence.
  - intros ch' Hne. rewrite Hc2, Hc1 by exact Hne. reflexivity.
  - exists (evs1 ++ evs2). repeat split.
    + rewrite Ht2, Ht1, app_assoc. reflexivity.
    + rewrite forallb_app, Hf1, Hf2. reflexivity.
    + rewrite creations_app. lia.
Qed.

Lemma pool_step_weaken ch n n' w w' :
  (n <= n')%nat -> pool_step ch n w w' -> pool_step ch n' w w'.
Proof.
  intros Hle (Hp & Ha & Hc & evs & Ht & Hf & Hn).
  repeat split; try assumption. exists evs. repeat split; try assumption. lia.
Qed.

(** Events appended to the trace, the manager being kept. *)
Lemma pool_step_events ch w evs :
  forallb is_pool_event evs = true ->
  pool_step ch (creations evs) w {| mgr := mgr w; trace := trace w ++ evs |}.
Proof.
  intros Hf. repeat split. exists evs. repeat split; [exact Hf | lia].
Qed.

Lemma pool_step_log ch w ev :
  is_pool_event ev = true ->
  pool_step ch (creations [ev]) w (log ev w).
Proof.
  intros He. apply (pool_step_events ch w [ev]). simpl. rewrite He. reflexivity.
Qed.

Lemma pool_step_cache ch w wc :
  (forall ch', ch' <> ch -> wc !! ch' = webhook_cache (mgr w) !! ch') ->
  pool_step ch 0 w (with_mgr (set_webhook_cache wc) w).
Proof.
  intros Hc. repeat split; [exact Hc|].
  exists []. simpl. rewrite app_nil_r. repeat split.
  change (creations []) with 0%nat. lia.
Qed.

Lemma deletes_are_pool_events (xs : list Webhook) :
  forallb is_pool_event (map EvDeleteWebhook xs) = true.
Proof. induction xs as [|x xs IH]; [reflexivity | exact IH]. Qed.

Lemma cleanup_step ch w :
  pool_step ch 0 w (snd (_cleanup_old_webhooks api ch w)).
Proof.
  destruct (channel_webhooks api (clock w) ch) as [e|webhooks] eqn:E.
  - rewrite (cleanup_listing_fails api ch w e E). simpl.
    apply (pool_step_log ch w (EvListWebhooks ch)). reflexivity.
  - rewrite (cleanup_listing_succeeds api ch w webhooks E). simpl.
    eapply pool_step_weaken;
      [|apply (pool_step_events ch w
                 (EvListWebhooks ch :: map EvDeleteWebhook (cleanup_targets webhooks)))].
    + change (EvListWebhooks ch :: map EvDeleteWebhook (cleanup_targets webhooks))
        with ([EvListWebhooks ch] ++ map EvDeleteWebhook (cleanup_targets webhooks)).
      rewrite creations_app, creations_deletes. simpl. lia.
    + simpl. apply deletes_are_pool_events.
Qed.

Lemma create_and_cache_step ch w :
  pool_step ch 1 w (snd (create_and_cache api ch w)) /\
  (forall wh, fst (create_and_cache api ch w) = Ok wh ->
     webhook_cache (mgr (snd (create_and_cache api ch w))) !! ch = Some wh).
Proof.
  unfold create_and_cache, bind, create_webhook, query, cache_put, ret.
  destruct (channel_create_webhook api (clock w) ch) as [e|wh]; simpl.
  - split; [|discriminate].
    apply (pool_step_log ch w (EvCreateWebhook ch)). reflexivity.
  - split.
    + change 1%nat with (1 + 0)%nat. eapply pool_step_trans.
      * apply (pool_step_log ch w (EvCreateWebhook ch)). reflexivity.
      * apply (pool_step_cache ch (log (EvCreateWebhook ch) w)).
        intros ch' Hne. apply lookup_insert_ne. congruence.
    + intros wh' [= <-]. apply lookup_insert_eq.
Qed.

Lemma create_new_step ch w :
  pool_step ch 2 w (snd (create_new api ch w)) /\
  (forall wh, fst (create_new api ch w) = Ok wh ->
     webhook_cache (mgr (snd (create_new api ch w))) !! ch = Some wh) /\
  (forall e, fst (create_new api ch w) = Raise e -> e = Exception).
Proof.
  unfold create_new.
  pose proof (create_and_cache_step ch w) as [Hs1 Hc1].
  destruct (create_and_cache api ch w) as [[wh|e] w1] eqn:E1; simpl in *.
  - split; [eapply pool_step_weaken; [|exact Hs1]; lia|].
    split; [exact Hc1 | discriminate].
  - assert (Hfail : pool_step ch 2 w w1 /\
                    (forall wh, Raise Exception = Ok wh ->
                       webhook_cache (mgr w1) !! ch = Some wh) /\
                    (forall e0, @Raise Webhook Exception = Raise e0 -> e0 = Exception)).
    { split; [eapply pool_step_weaken; [|exact Hs1]; lia|].
      split; [discriminate | congruence]. }
    destruct e as [status c| |]; try exact Hfail.
    destruct (c =? quota_code); [|exact Hfail].
    unfold bind.
    pose proof (cleanup_step ch w1) as Hs2.
    destruct (_cleanup_old_webhooks api ch w1) as [[[]|e2] w2]; simpl in *.
    + pose proof (create_and_cache_step ch w2) as [Hs3 Hc3].
      assert (Hall : pool_step ch 2 w (snd (create_and_cache api ch w2))).
      { change 2%nat with (1 + 1)%nat. eapply pool_step_trans; [|exact Hs3].
        change 1%nat with (1 + 0)%nat. eapply pool_step_trans; eassumption. }
      destruct (create_and_cache api ch w2) as [[wh|e3] w3]; simpl in *.
      * split; [exact Hall|]. split; [exact Hc3 | discriminate].
      * split; [exact Hall|]. split; [discriminate | congruence].
    + split.
      * change 2%nat with (1 + 1)%nat. eapply pool_step_trans; [exact Hs1|].
        eapply pool_step_weaken; [|exact Hs2]. lia.
      * split; [discriminate | congruence].
Qed.

Lemma probe_cache_step ch w :
  pool_step ch 0 w (snd (probe_cache api ch w)) /\
  (forall wh, fst (probe_cache api ch w) = Ok (Some wh) ->
     webhook_cache (mgr (snd (probe_cache api ch w))) !! ch = Some wh) /\
  (forall e, fst (probe_cache api ch w) = Raise e ->
     exists wh, webhook_cache (mgr w) !! ch = Some wh /\
                webhook_fetch api (clock w) wh = Some e /\ is_NotFound e = false).
Proof.
  unfold probe_cache, call.
  destruct (webhook_cache (mgr w) !! ch) as [wh|] eqn:Ec.
  - destruct (webhook_fetch api (clock w) wh) as [e|] eqn:Ef.
    + destruct (is_NotFound e) eqn:En; simpl.
      * split; [|split; discriminate].
        change 0%nat with (0 + 0)%nat. eapply pool_step_trans.
        -- apply (pool_step_log ch w (EvFetch wh)). reflexivity.
        -- apply (pool_step_cache ch (log (EvFetch wh) w)).
           intros ch' Hne. apply lookup_delete_ne. congruence.
      * split; [apply (pool_step_log ch w (EvFetch wh)); reflexivity|].
        split; [discriminate|]. intros e' [= <-]. eauto.
    + simpl. split; [apply (pool_step_log ch w (EvFetch wh)); reflexivity|].
      split; [|discriminate]. intros wh' [= <-]. exact Ec.
  - simpl. split; [apply pool_step_refl|]. split; discriminate.
Qed.

Lemma find_existing_step ch w :
  pool_step ch 0 w (snd (find_existing api ch w)) /\
  (exists r, fst (find_existing api ch w) = Ok r /\
     forall wh, r = Some wh ->
       webhook_cache (mgr (snd (find_existing api ch w))) !! ch = Some wh /\
       recognized wh = true).
Proof.
  unfold find_existing, list_webhooks, query.
  destruct (channel_webhooks api (clock w) ch) as [e|webhooks]; simpl.
  - split; [apply (pool_step_log ch w (EvListWebhooks ch)); reflexivity|].
    exists None. split; [reflexivity | discriminate].
  - destruct (List.find recognized webhooks) as [wh|] eqn:Ef; simpl.
    + split.
      * change 0%nat with (0 + 0)%nat. eapply pool_step_trans.
        -- apply (pool_step_log ch w (EvListWebhooks ch)). reflexivity.
        -- apply (pool_step_cache ch (log (EvListWebhooks ch) w)).
           intros ch' Hne. apply lookup_insert_ne. congruence.
      * exists (Some wh). split; [reflexivity|]. intros wh' [= <-].
        split; [apply lookup_insert_eq|]. apply find_some in Ef. tauto.
    + split; [apply (pool_step_log ch w (EvListWebhooks ch)); reflexivity|].
      exists None. split; [reflexivity | discriminate].
Qed.

End PoolFacts.

(** The whole of [get_or_create_webhook] as one step of the pool. *)
Lemma get_or_create_step (api : Discord) (ch : Z) (w : World) :
  pool_step ch 2 w (snd (get_or_create_webhook api ch w)) /\
  (forall wh, fst (get_or_create_webhook api ch w) = Ok wh ->
     webhook_cache (mgr (snd (get_or_create_webhook api ch w))) !! ch = Some wh).
Proof.
  unfold get_or_create_webhook, bind.
  pose proof (probe_cache_step api ch w) as (Hs1 & Hc1 & _).
  destruct (probe_cache api ch w) as [[[wh|]|e] w1]; simpl in *.
  - split; [eapply pool_step_weaken; [|exact Hs1]; lia|].
    intros wh' [= <-]. apply Hc1. reflexivity.
  - pose proof (find_existing_step api ch w1) as (Hs2 & r & Hr & Hc2).
    destruct (find_existing api ch w1) as [[[wh|]|e] w2]; simpl in *;
      try discriminate.
    + split.
      * eapply pool_step_weaken; [|eapply pool_step_trans; eassumption]. lia.
      * intros wh' [= <-]. injection Hr as <-. apply (Hc2 wh eq_refl).
    + pose proof (create_new_step api ch w2) as (Hs3 & Hc3 & _).
      split; [|exact Hc3].
      change 2%nat with (0 + 2)%nat. eapply pool_step_trans; [|exact Hs3].
      change 0%nat with (0 + 0)%nat. eapply pool_step_trans; eassumption.
  - split; [eapply pool_step_weaken; [|exact Hs1]; lia | discriminate].
Qed.

(** X11.  [get_or_create_webhook] on channel [ch] leaves the guard, the
    sticky cells and the cached endpoints of the other channels as they
    were; it only makes calls that manage endpoints, at most two creations
    among them; and when it returns an endpoint, the cache holds that
    endpoint for [ch]. *)
Theorem get_or_create_postcondition (api : Discord) (ch : Z) (w : World) :
  pool_step ch 2 w (snd (get_or_create_webhook api ch w)) /\
  (forall wh, fst (get_or_create_webhook api ch w) = Ok wh ->
     webhook_cache (mgr (snd (get_or_create_webhook api ch w))) !! ch = Some wh).
Proof. exact (get_or_create_step api ch w). Qed.

(** X12.  A failure of [get_or_create_webhook] is a plain [Exception],
    unless it is the error of the probe of the cached endpoint, other than
    [NotFound], which passes through as it is. *)
Theorem get_or_create_failure (api : Discord) (ch : Z) (w : World) (e : exn) :
  fst (get_or_create_webhook api ch w) = Raise e ->
  e = Exception \/
  exists wh, webhook_cache (mgr w) !! ch = Some wh /\
             webhook_fetch api (clock w) wh = Some e /\ is_NotFound e = false.
Proof.
  unfold get_or_create_webhook, bind.
  pose proof (probe_cache_step api ch w) as (_ & _ & He1).
  destruct (probe_cache api ch w) as [[[wh|]|e1] w1]; simpl in *.
  - discriminate.
  - pose proof (find_existing_step api ch w1) as (_ & r & Hr & _).
    destruct (find_existing api ch w1) as [[[wh|]|e2] w2]; simpl in *;
      try discriminate.
    pose proof (create_new_step api ch w2) as (_ & _ & He3).
    intros H. left. apply He3, H.
  - intros [= <-]. right. apply He1. reflexivity.
Qed.

Lemma get_or_create_failure_witness :
  Exception = Exception \/
  exists wh, webhook_cache (mgr world0) !! 100 = Some wh /\
             webhook_fetch api_quota_listing_down (clock world0) wh = Some Exception /\
             is_NotFound Exception = false.
Proof.
  apply (get_or_create_failure api_quota_listing_down 100 world0 Exception).
  vm_compute. reflexivity.
Defined.

(** X13.  An endpoint is reused where there is one: a cached endpoint
    that answers the probe is returned after that single call; with
    nothing cached, the first endpoint of the listing with a recognized
    name is returned and cached.  Nothing is created in either case. *)
Theorem endpoint_is_reused (api : Discord) (ch : Z) (w : World) (wh : Webhook) :
  (webhook_cache (mgr w) !! ch = Some wh ->
   webhook_fetch api (clock w) wh = None ->
   get_or_create_webhook api ch w = (Ok wh, log (EvFetch wh) w)) /\
  (forall webhooks,
     webhook_cache (mgr w) !! ch = None ->
     channel_webhooks api (clock w) ch = inr webhooks ->
     List.find recognized webhooks = Some wh ->
     get_or_create_webhook api ch w
     = (Ok wh,
        {| mgr := set_webhook_cache (<[ch := wh]> (webhook_cache (mgr w))) (mgr w);
           trace := trace w ++ [EvListWebhooks ch] |})).
Proof.
  split.
  - intros Hc Hf. unfold get_or_create_webhook, bind, probe_cache, call.
    rewrite Hc, Hf. reflexivity.
  - intros webhooks Hc Hl Hf.
    unfold get_or_create_webhook, bind, probe_cache. rewrite Hc.
    unfold find_existing, list_webhooks, query. rewrite Hl, Hf. reflexivity.
Qed.

Lemma endpoint_is_reused_witness :
  get_or_create_webhook api_quota_once 100 world0
  = (Ok {| wh_id := 1; wh_name := py "Quest Keeper RP" |},
     {| mgr := set_webhook_cache
                 (<[100 := {| wh_id := 1; wh_name := py "Quest Keeper RP" |}]>
                    (webhook_cache (mgr world0))) (mgr world0);
        trace := trace world0 ++ [EvListWebhooks 100] |}).
Proof.
  apply (proj2 (endpoint_is_reused api_quota_once 100 world0
                  {| wh_id := 1; wh_name := py "Quest Keeper RP" |})
           [ {| wh_id := 1; wh_name := py "Quest Keeper RP" |};
             {| wh_id := 2; wh_name := py "Character Alias Bot" |};
             {| wh_id := 3; wh_name := py "Other" |} ]);
    reflexivity.
Defined.

(** The calls of [send_as_character], in order. *)
Lemma send_as_character_shape (api : Discord) (chan : Channel)
    (a : CharacterAlias) (text : str) (w : World) :
  let key := match parent chan with Some p => p | None => channel_id chan end in
  let thread :=
    match parent chan with Some _ => Some (channel_id chan) | None => None end in
  let sent wh := EvWebhookSend wh (name a) (avatar_url a) text thread in
  exists w1, pool_step key 2 w w1 /\
    match fst (send_as_character api chan a text w) with
    | Ok _ =>
        exists wh, webhook_cache (mgr w1) !! key = Some wh /\
          snd (send_as_character api chan a text w)
          = log (EvIncrementCount a) (log (sent wh) w1)
    | Raise _ =>
        snd (send_as_character api chan a text w) = w1 \/
        exists wh, webhook_cache (mgr w1) !! key = Some wh /\
          snd (send_as_character api chan a text w) = log (sent wh) w1
    end.
Proof.
  cbv zeta. unfold send_as_character, bind.
  set (key := match parent chan with Some p => p | None => channel_id chan end).
  pose proof (get_or_create_step api key w) as [Hs Hc].
  destruct (get_or_create_webhook api key w) as [[wh|e] w1]; simpl in *.
  - exists w1. split; [exact Hs|]. unfold call.
    destruct (webhook_send api (clock w1) wh text); simpl.
    + right. exists wh. split; [apply Hc; reflexivity | reflexivity].
    + exists wh. split; [apply Hc; reflexivity | reflexivity].
  - exists w1. split; [exact Hs|]. left. reflexivity.
Qed.

(** X14.  [send_as_character] works on the endpoint of the parent channel
    when the channel is a thread, and then names the thread as target.
    When it returns, the last two calls are the send, under the name and
    avatar of the persona, and the usage update; when it raises, the usage
    is not updated: either the pool failed and nothing was sent, or the
    send itself failed. *)
Theorem send_as_character_effects (api : Discord) (chan : Channel)
    (a : CharacterAlias) (text : str) (w : World) :
  let key := match parent chan with Some p => p | None => channel_id chan end in
  let thread :=
    match parent chan with Some _ => Some (channel_id chan) | None => None end in
  let sent wh := EvWebhookSend wh (name a) (avatar_url a) text thread in
  exists w1, pool_step key 2 w w1 /\
    match fst (send_as_character api chan a text w) with
    | Ok _ =>
        exists wh, webhook_cache (mgr w1) !! key = Some wh /\
          snd (send_as_character api chan a text w)
          = log (EvIncrementCount a) (log (sent wh) w1)
    | Raise _ =>
        snd (send_as_character api chan a text w) = w1 \/
        exists wh, webhook_cache (mgr w1) !! key = Some wh /\
          snd (send_as_character api chan a text w) = log (sent wh) w1
    end.
Proof. exact (send_as_character_shape api chan a text w). Qed.

(** ** The dispatcher *)

Section DispatchFacts.
Context (db : PersonaStore) (api : Discord).

Lemma send_keeps_guard chan a text w :
  processing_messages (mgr (snd (send_as_character api chan a text w)))
  = processing_messages (mgr w).
Proof.
  destruct (send_as_character_shape api chan a text w) as (w1 & Hs & H).
  destruct Hs as (Hp & _).
  destruct (fst (send_as_character api chan a text w)).
  - destruct H as (wh & _ & ->). exact Hp.
  - destruct H as [-> | (wh & _ & ->)]; exact Hp.
Qed.

Lemma sends_keep_guard chan (l : list (CharacterAlias * str)) w :
  processing_messages
    (mgr (snd (for_each_swallow
                 (fun p => send_as_character api chan (fst p) (snd p)) l w)))
  = processing_messages (mgr w).
Proof.
  revert w. induction l as [|p l IH]; intros w; [reflexivity|].
  simpl. unfold bind, swallow.
  pose proof (send_keeps_guard chan (fst p) (snd p) w) as Hp.
  destruct (send_as_character api chan (fst p) (snd p) w) as [[u|e] w1];
    simpl in Hp; rewrite IH; exact Hp.
Qed.

Lemma deliver_single_keeps_guard message a text w :
  fst (deliver_single api message a text w) = Ok tt /\
  processing_messages (mgr (snd (deliver_single api message a text w)))
  = processing_messages (mgr w).
Proof.
  unfold deliver_single, bind, delete_message, call.
  destruct (message_delete api (clock w) (msg_id message)) as [e|].
  - destruct (is_Forbidden e); [split; reflexivity|].
    destruct (is_NotFound e); [split; reflexivity|].
    unfold swallow. destruct (channel_send api _ _); split; reflexivity.
  - pose proof (send_keeps_guard (channel message) a text
                  (log (EvMessageDelete (msg_id message)) w)) as Hp.
    destruct (send_as_character api (channel message) a text _) as [[[]|e] w1];
      simpl in Hp.
    + split; [reflexivity | exact Hp].
    + destruct (is_Forbidden e); [split; [reflexivity | exact Hp]|].
      destruct (is_NotFound e); [split; [reflexivity | exact Hp]|].
      unfold swallow. destruct (channel_send api _ _); split;
        try reflexivity; exact Hp.
Qed.

Lemma deliver_multiline_guard message l w :
  processing_messages (mgr (snd (deliver_multiline api message l w)))
  = processing_messages (mgr w) ∖ {[msg_id message]}.
Proof.
  unfold deliver_multiline, try_finally, swallow, bind, delete_message, call.
  destruct (message_delete api (clock w) (msg_id message)) as [e|]; simpl;
    [reflexivity|].
  pose proof (sends_keep_guard (channel message) l
                (log (EvMessageDelete (msg_id message)) w)) as Hp.
  destruct (for_each_swallow _ l _) as [[u|e] w1]; simpl in *; rewrite Hp;
    reflexivity.
Qed.

Lemma body_guard message w :
  processing_messages (mgr (snd (on_message_body db api message w)))
    ∖ {[msg_id message]}
  = processing_messages (mgr w) ∖ {[msg_id message]}.
Proof.
  unfold on_message_body. case_bool_decide as Hin; [reflexivity|].
  unfold bind, resolve.
  destruct (parse_multiline_aliases db _ message) as [multi ap1]. simpl.
  assert (Hadd : forall X : gset Z,
             ({[msg_id message]} ∪ X) ∖ {[msg_id message]} = X ∖ {[msg_id message]}).
  { intros X. apply set_eq. intros x.
    rewrite !elem_of_difference, elem_of_union, elem_of_singleton. tauto. }
  assert (Hsub : forall X : gset Z,
             (X ∖ {[msg_id message]}) ∖ {[msg_id message]} = X ∖ {[msg_id message]}).
  { intros X. apply set_eq. intros x. rewrite !elem_of_difference. tauto. }
  destruct (match multi with Some l => (1 <? length l)%nat | None => false end).
  - destruct (1 <? size _)%nat.
    + rewrite deliver_multiline_guard. simpl. rewrite Hsub. apply Hadd.
    + simpl. apply Hadd.
  - simpl.
    destruct (check_message_for_alias db ap1 message) as [[[a text]|] ap2]; simpl.
    + rewrite (proj2 (deliver_single_keeps_guard message a text _)). simpl.
      apply Hadd.
    + destruct (negb _); simpl; apply Hadd.
Qed.

End DispatchFacts.

(** X15.  When the deletion of the original message fails, the message is
    not posted as the persona.  For [Forbidden] and [NotFound] the handler
    stops there; for any other error it posts one failure notice in the
    channel.  The delivery never raises. *)
Theorem failed_deletion_stops_delivery (api : Discord) (message : Message)
    (a : CharacterAlias) (text : str) (w : World) (e : exn) :
  message_delete api (clock w) (msg_id message) = Some e ->
  deliver_single api message a text w
  = (Ok tt,
     if is_Forbidden e || is_NotFound e
     then log (EvMessageDelete (msg_id message)) w
     else log (EvChannelSend (channel_id (channel message)))
              (log (EvMessageDelete (msg_id message)) w)).
Proof.
  intros Hd. unfold deliver_single, bind, delete_message, call. rewrite Hd.
  destruct (is_Forbidden e); [reflexivity|].
  destruct (is_NotFound e); [reflexivity|].
  unfold swallow, call. destruct (channel_send api _ _); reflexivity.
Qed.

Lemma failed_deletion_stops_delivery_witness :
  deliver_single api_no_delete (Examples.say 7 "k:hi") Examples.kara (py "hi") world0
  = (Ok tt, log (EvMessageDelete 7) world0).
Proof.
  exact (failed_deletion_stops_delivery api_no_delete (Examples.say 7 "k:hi")
           Examples.kara (py "hi") world0 (HTTPException 403 50013) eq_refl).
Defined.

(** X16.  Handling a message releases the guard entry of that message and
    no other: the guard after [on_message] is the guard before it without
    the id of the message, whatever Discord answers. *)
Theorem guard_entries_of_others (db : PersonaStore) (api : Discord)
    (message : Message) (w : World) :
  handled message ->
  processing_messages (mgr (on_message db api message w))
  = processing_messages (mgr w) ∖ {[msg_id message]}.
Proof.
  intros Hh. rewrite on_message_handled by exact Hh.
  unfold try_finally, swallow.
  pose proof (body_guard db api message w) as Hb.
  destruct (on_message_body db api message w) as [[u|e] w1]; simpl in *;
    exact Hb.
Qed.

Lemma guard_entries_of_others_witness :
  processing_messages
    (mgr (on_message Examples.db_own api_ok (Examples.say 7 "k:hi") world_busy))
  = processing_messages (mgr world_busy) ∖ {[7]}.
Proof.
  apply (guard_entries_of_others Examples.db_own api_ok (Examples.say 7 "k:hi")
           world_busy).
  repeat split; [discriminate | vm_compute; discriminate].
Defined.

Section SingleLine.
Context (db : PersonaStore) (api : Discord).

(** Adding an id that was absent and discarding it gives the guard back. *)
Lemma guard_add_discard (mid : Z) (X : gset Z) :
  mid ∉ X -> ({[mid]} ∪ X) ∖ {[mid]} = X.
Proof.
  intros Hn. apply set_eq. intros x.
  rewrite elem_of_difference, elem_of_union, elem_of_singleton.
  split; [tauto|]. intros Hx. split; [tauto|]. intros ->. contradiction.
Qed.

(** [on_message] on a message of one line that is not in the guard. *)
Lemma on_message_single_line message w :
  handled message ->
  msg_id message ∉ processing_messages (mgr w) ->
  ~ In newline (content message) ->
  on_message db api message w
  = guard_discard (msg_id message)
      (let '(r, ap') := check_message_for_alias db (auto_proxy (mgr w)) message in
       let w1 := with_mgr (set_auto_proxy ap') (guard_add (msg_id message) w) in
       match r with
       | Some (a, text) => snd (deliver_single api message a text w1)
       | None => w1
       end).
Proof.
  intros Hh Hn Hnl. rewrite on_message_handled by exact Hh.
  unfold try_finally, swallow, on_message_body.
  rewrite bool_decide_eq_false_2 by exact Hn.
  unfold bind, resolve. simpl.
  unfold parse_multiline_aliases. rewrite (split_nl_single _ Hnl).
  destruct Hh as (Hb & Hg & _). rewrite Hb.
  destruct (guild message) as [g|]; [|congruence]. simpl.
  destruct (check_message_for_alias db (auto_proxy (mgr w)) message)
    as [[[a text]|] ap']; simpl.
  - pose proof (deliver_single_keeps_guard api message a text
                  (with_mgr (set_auto_proxy ap')
                     (with_mgr (set_auto_proxy (auto_proxy (mgr w)))
                        (guard_add (msg_id message) w)))) as [Hok _].
    destruct (deliver_single api message a text _) as [[u|e] w2]; reflexivity.
  - destruct (negb _); reflexivity.
Qed.

End SingleLine.

(** X17.  A one-line message that resolves to persona [a] with content
    [text] is handled as: take the guard, record the sticky update, run the
    single delivery (deletion first, then the send), release the guard. *)
Theorem single_line_delivery (db : PersonaStore) (api : Discord)
    (message : Message) (w : World) (a : CharacterAlias) (text : str)
    (ap' : gmap Z AutoData) :
  handled message ->
  msg_id message ∉ processing_messages (mgr w) ->
  ~ In newline (content message) ->
  check_message_for_alias db (auto_proxy (mgr w)) message = (Some (a, text), ap') ->
  on_message db api message w
  = guard_discard (msg_id message)
      (snd (deliver_single api message a text
              (with_mgr (set_auto_proxy ap') (guard_add (msg_id message) w)))).
Proof.
  intros Hh Hn Hnl Hc.
  rewrite (on_message_single_line db api message w Hh Hn Hnl), Hc. reflexivity.
Qed.

Lemma single_line_delivery_witness :
  trace (on_message Examples.db_own api_ok (Examples.say 7 "k:Hello there") world0)
  = [EvMessageDelete 7; EvListWebhooks 100; EvCreateWebhook 100;
     EvWebhookSend {| wh_id := 9; wh_name := py "Quest Keeper RP" |}
       (py "Kara") Examples.avatar (py "Hello there") None;
     EvIncrementCount Examples.kara].
Proof.
  rewrite (single_line_delivery Examples.db_own api_ok
             (Examples.say 7 "k:Hello there") world0 Examples.kara
             (py "Hello there") ∅).
  - vm_compute. reflexivity.
  - repeat split; [discriminate | vm_compute; discriminate].
  - simpl. apply not_elem_of_empty.
  - vm_compute. intuition discriminate.
  - vm_compute. reflexivity.
Defined.

(** X18.  A one-line message that resolves to nothing (no trigger matches
    and no sticky persona is set) leaves the world exactly as it was:
    nothing is called, and the guard, the cache and the sticky cells are
    unchanged. *)
Theorem unmatched_message_is_ignored (db : PersonaStore) (api : Discord)
    (message : Message) (w : World) :
  handled message ->
  msg_id message ∉ processing_messages (mgr w) ->
  ~ In newline (content message) ->
  fst (check_message_for_alias db (auto_proxy (mgr w)) message) = None ->
  on_message db api message w = w.
Proof.
  intros Hh Hn Hnl Hc.
  rewrite (on_message_single_line db api message w Hh Hn Hnl).
  assert (Hap : snd (check_message_for_alias db (auto_proxy (mgr w)) message)
                = auto_proxy (mgr w)).
  { revert Hc. unfold check_message_for_alias.
    destruct (guild message); [|reflexivity].
    destruct (author_bot message); [reflexivity|].
    destruct (match_override _ _); [discriminate|].
    destruct (match_alias _ _); [discriminate|].
    destruct (sticky_alias _ _ _); reflexivity. }
  destruct (check_message_for_alias db (auto_proxy (mgr w)) message) as [r ap'].
  simpl in Hc, Hap. subst r ap'.
  destruct w as [[wc ps ap] tr]. unfold guard_discard, guard_add, with_mgr,
    set_auto_proxy, set_processing. simpl in *.
  rewrite (guard_add_discard _ _ Hn). reflexivity.
Qed.

Lemma unmatched_message_is_ignored_witness :
  on_message Examples.db_own api_ok (Examples.say 7 "just chatting") world0 = world0.
Proof.
  apply unmatched_message_is_ignored.
  - repeat split; [discriminate | vm_compute; discriminate].
  - simpl. apply not_elem_of_empty.
  - vm_compute. intuition discriminate.
  - reflexivity.
Defined.

(** ** Usage statistics *)

Section StatsFacts.

Lemma insert_desc_perm x l : Permutation (x :: l) (insert_desc x l).
Proof.
  induction l as [|y l IH]; simpl; [reflexivity|].
  destruct (stat_message_count y <=? stat_message_count x); [reflexivity|].
  rewrite <- IH. apply perm_swap.
Qed.

Lemma insert_desc_sorted x l :
  StronglySorted (fun s1 s2 => stat_message_count s2 <= stat_message_count s1) l ->
  StronglySorted (fun s1 s2 => stat_message_count s2 <= stat_message_count s1)
                 (insert_desc x l).
Proof.
  induction 1 as [|y l Hs IH Hy]; simpl.
  - constructor; constructor.
  - destruct (Z.leb_spec (stat_message_count y) (stat_message_count x)) as [Hle|Hgt].
    + constructor; [constructor; assumption|].
      constructor; [exact Hle|].
      eapply Forall_impl; [exact Hy|]. simpl. intros z Hz. lia.
    + constructor; [exact IH|].
      rewrite <- (insert_desc_perm x l). constructor; [lia | exact Hy].
Qed.

Lemma insert_desc_filter k x l :
  List.filter (has_count k) (insert_desc x l)
  = List.filter (has_count k) (x :: l).
Proof.
  induction l as [|y l IH]; [reflexivity|].
  cbn [insert_desc].
  destruct (Z.leb_spec (stat_message_count y) (stat_message_count x)) as [Hle|Hgt];
    [reflexivity|].
  cbn [List.filter] in *. rewrite IH. unfold has_count.
  destruct (Z.eqb_spec (stat_message_count y) k) as [Hy|Hy];
    destruct (Z.eqb_spec (stat_message_count x) k) as [Hx|Hx];
    try reflexivity.
  lia.
Qed.

End StatsFacts.

(** X19.  [get_alias_stats] returns one entry for each alias, a missing
    count being 0, by decreasing message count; entries with the same count
    keep the order of the store. *)
Theorem alias_stats_sorted (rows : list AliasRow) :
  Permutation (map to_stat rows) (get_alias_stats rows) /\
  StronglySorted (fun s1 s2 => stat_message_count s2 <= stat_message_count s1)
                 (get_alias_stats rows) /\
  (forall k, List.filter (has_count k) (get_alias_stats rows)
             = List.filter (has_count k) (map to_stat rows)).
Proof.
  unfold get_alias_stats, sort_desc.
  induction (map to_stat rows) as [|x l (IHp & IHs & IHf)]; simpl.
  - repeat split; constructor.
  - split; [|split].
    + rewrite <- insert_desc_perm. constructor. exact IHp.
    + apply insert_desc_sorted, IHs.
    + intros k. rewrite insert_desc_filter. cbn [List.filter]. rewrite IHf.
      reflexivity.
Qed.
